(** * job-seeker: the Google Custom Search job fetcher

    A shallow embedding of the three revisions of [googleSearch.js] found in
    the repository, and the properties of its specification proved or
    refuted on them:

    - [src/googleSearch.js]: the fetch-all revision ([fetchAllResults], then
      filter, then drop the URLs of [processed_urls.txt]);
    - [src/unnamed/part_001]: the incremental revision ([normalizeUrl],
      [fetchNewResults]);
    - [src/unnamed/part_002]: the first revision (unguarded [buildQuery],
      no URL log).

    Definitions shared word for word by several revisions are given once;
    the ones that differ live in the modules [GoogleSearch], [Part001] and
    [Part002].

    Modelling conventions.  A JavaScript string is a [string], the bytes
    of its UTF-8 form.  The string built-ins [toLowerCase] and [trim] are
    operations of the JavaScript runtime, a parameter [Runtime] of the
    development, so that what is proved holds of the Unicode built-ins;
    the few facts of them that a statement needs are hypotheses of that
    statement.  [new Date(s)] is a parameter [Date_parse] in the same way.
    The examples run on text whose letters and white space are ASCII and
    on dates in the form YYYY-MM-DD, with [ascii_toLowerCase],
    [ascii_trim] and [iso_date_parse].

    A JS [Set] of strings is a [gset string], a JSON object used as a
    dictionary a [gmap string string].  [undefined]/[null] are [None].
    [config.maxResults] is any JSON number or absent ([jsnum]); a start
    offset is any JSON number, a rational.  The remote endpoint is a
    function from the request number and the start offset to a response:
    a failure of [fetch] or [res.json()], a document that is [null], or a
    document with its items (objects with string fields) and its
    next-page entry.  A loop that awaits the endpoint is a function on
    fuel whose result records the requests issued and, when the loop has
    ended within the fuel, how it ended: by a [break], by its [catch], or
    by an exception that escapes it. *)

From Stdlib Require Import String Ascii ZArith QArith Lqa List Bool Lia.
From stdpp Require Import base gmap strings list.

Close Scope Q_scope.
Open Scope string_scope.
Open Scope list_scope.

(** ** JavaScript strings *)

(** The double quote and the line feed, as one-character strings. *)
Definition dquote : ascii := "034"%char.
Definition dq : string := String dquote EmptyString.
Definition newline : ascii := "010"%char.
Definition nl : string := String newline EmptyString.

(** [Boolean(s)] for a string: the empty string is the only falsy one. *)
Definition truthy (s : string) : bool :=
  match s with EmptyString => false | String _ _ => true end.

Definition is_upper (c : ascii) : bool :=
  (65 <=? nat_of_ascii c)%nat && (nat_of_ascii c <=? 90)%nat.

Definition lower_ascii (c : ascii) : ascii :=
  if is_upper c then ascii_of_nat (nat_of_ascii c + 32) else c.

(** [s.toLowerCase()] on a string whose letters are ASCII: the bytes [A]-[Z]
    are lowered, every other byte is kept. *)
Fixpoint ascii_toLowerCase (s : string) : string :=
  match s with
  | EmptyString => EmptyString
  | String c r => String (lower_ascii c) (ascii_toLowerCase r)
  end.

(** The ASCII white space: TAB, LF, VT, FF, CR and the space. *)
Definition is_space (c : ascii) : bool :=
  let n := nat_of_ascii c in
  ((9 <=? n)%nat && (n <=? 13)%nat) || (n =? 32)%nat.

Fixpoint trimStart (s : string) : string :=
  match s with
  | EmptyString => EmptyString
  | String c r => if is_space c then trimStart r else s
  end.

Fixpoint trimEnd (s : string) : string :=
  match s with
  | EmptyString => EmptyString
  | String c r =>
      match trimEnd r with
      | EmptyString => if is_space c then EmptyString else String c EmptyString
      | r' => String c r'
      end
  end.

(** [s.trim()] on a string whose white space is ASCII. *)
Definition ascii_trim (s : string) : string := trimEnd (trimStart s).

(** The string built-ins of the runtime the program calls.  They are
    Unicode operations ([toLowerCase] follows the Unicode case mappings,
    [trim] strips the Unicode white space and line terminators); nothing
    is assumed of them but what a theorem states. *)
Class Runtime : Type := {
  toLowerCase : string -> string;
  trim : string -> string
}.

(** [s.startsWith(p)] *)
Fixpoint startsWith (s p : string) {struct p} : bool :=
  match p, s with
  | EmptyString, _ => true
  | String _ _, EmptyString => false
  | String a p', String b s' => Ascii.eqb a b && startsWith s' p'
  end.

(** [s.includes(k)]: [k] occurs in [s] at some position. *)
Fixpoint includes (s k : string) : bool :=
  startsWith s k ||
  match s with
  | EmptyString => false
  | String _ r => includes r k
  end.

(** The global replace of [escapeCSV]: every double quote of [str] is
    replaced by two. *)
Fixpoint replace_quotes (str : string) : string :=
  match str with
  | EmptyString => EmptyString
  | String c r =>
      if Ascii.eqb c dquote
      then String dquote (String dquote (replace_quotes r))
      else String c (replace_quotes r)
  end.

(** [arr.join(sep)] on an array of strings. *)
Definition join (sep : string) (arr : list string) : string :=
  String.concat sep arr.

(** [data.split('\n')]: the pieces between line feeds; never empty. *)
Fixpoint split_lines (data : string) : list string :=
  match data with
  | EmptyString => [EmptyString]
  | String c r =>
      if Ascii.eqb c newline then EmptyString :: split_lines r
      else match split_lines r with
           | h :: t => String c h :: t
           | [] => [String c EmptyString]
           end
  end.

(** [k] occurs in [s]: the relation [includes] decides. *)
Definition Substring (k s : string) : Prop :=
  exists pre post, s = pre +:+ k +:+ post.

(** ** JavaScript numbers compared with a length *)

(** The values [config.maxResults] and [config.maxResults || Infinity]
    can take, as far as the comparisons with an array length and the
    assignment to it can tell: absent, a count, a number that is no
    integer and lies between [n] and [n + 1], a number below zero, or
    [Infinity]. *)
Inductive jsnum : Type :=
| undefined
| num (n : nat)
| frac (n : nat)
| negative
| Infinity.

(** [n < m]; any comparison with [undefined] (NaN) is false. *)
Definition lt_js (n : nat) (m : jsnum) : bool :=
  match m with
  | undefined => false
  | num k => (n <? k)%nat
  | frac k => (n <=? k)%nat
  | negative => false
  | Infinity => true
  end.

(** [n >= m] *)
Definition ge_js (n : nat) (m : jsnum) : bool :=
  match m with
  | undefined => false
  | num k => (k <=? n)%nat
  | frac k => (k <? n)%nat
  | negative => true
  | Infinity => false
  end.

(** [m || Infinity]: [undefined] and [0] are falsy. *)
Definition or_Infinity (m : jsnum) : jsnum :=
  match m with
  | undefined | num 0 => Infinity
  | _ => m
  end.

(** [arr.length = m] for [m <= arr.length]: the array is cut to [m] when
    [m] is a count; any other value is no array length and the assignment
    throws a RangeError ([None]). *)
Definition set_length {A : Type} (arr : list A) (m : jsnum) : option (list A) :=
  match m with
  | num k => Some (firstn k arr)
  | _ => None
  end.

(** The value can be assigned to an array length. *)
Definition array_length (m : jsnum) : bool :=
  match m with num _ => true | _ => false end.

(** ** JavaScript numbers used as start offsets *)

(** A start offset is whatever number the endpoint's document holds: a
    rational.  [a < b] as a boolean. *)
Definition Qlt_bool (a b : Q) : bool := negb (Qle_bool b a).

(** The number is an integer. *)
Definition whole (q : Q) : Prop := exists z : Z, Qeq q (inject_Z z).

(** ** Data model *)

(** [item.pagemap]: only [metatags], an array of dictionaries, is read. *)
Record Pagemap : Type := {
  metatags : option (list (gmap string string))
}.

(** A result item of the remote endpoint ([data.items[i]]). *)
Record Item : Type := {
  title : option string;
  link : option string;
  pagemap : option Pagemap
}.

(** The unit appended to the CSV log: [{ Title, URL }]. *)
Record ResultRecord : Type := {
  Title : string;
  URL : string
}.

(** What [buildQuery] destructures from the configuration; a category may
    be absent ([None]) or an empty array. *)
Record SearchCriteria : Type := {
  intitleKeywords : option (list string);
  keywords : option (list string);
  domains : option (list string);
  locations : option (list string);
  minDate : option string;
  avoidKeywords : option (list string)
}.

(** What the fetch loop and the filters read from [config].  The filters
    call [config.avoidKeywords.some] unguarded, so the array is there. *)
Record Config : Type := {
  config_avoidKeywords : list string;
  config_minDate : option string;
  config_maxResults : jsnum
}.

(** [data.queries.nextPage] as the loops read it: [queries], [nextPage] or
    the [startIndex] of [nextPage[0]] is absent; or [nextPage] is an empty
    array, where reading [nextPage[0].startIndex] throws a TypeError; or
    [nextPage[0].startIndex] is a number. *)
Inductive NextPage : Type :=
| NoNext
| EmptyNext
| Next (startIndex : Q).

(** One answer of the endpoint to a page request: [fetch] or [res.json()]
    threw; or the document decoded to [null], where reading [data.items]
    throws a TypeError; or a document with its [items] (absent, or an
    array of objects) and its [queries.nextPage]. *)
Inductive Response : Type :=
| Failure
| Null
| Data (items : option (list Item)) (nextPage : NextPage).

(** The endpoint: the answer to the [n]-th request (from 0), issued with
    start offset [start]. *)
Definition Remote : Type := nat -> Q -> Response.

(** The two files the program keeps; [None] is a file that does not exist. *)
Record Files : Type := {
  processed_urls_txt : option string;
  google_search_results_csv : option string
}.

(** How a pagination loop ended: by one of its [break]s, by its [catch]
    ([FetchError] when [fetch] or [res.json()] threw, [CaughtError] when
    another statement of the [try] block did), or by an exception that no
    [catch] encloses ([Thrown]: the function returns no array and its
    caller is abandoned). *)
Inductive Exit : Type :=
| TargetReached
| NoItems
| NoNextPage
| CeilingExceeded
| FetchError
| CaughtError
| Thrown.

(** What a pagination loop has done within its fuel: the start offsets of
    the requests issued, in order, and, once it has ended, the exit taken
    and the accumulator at that moment (the array returned, unless the exit
    is [Thrown]). *)
Record Run (A : Type) : Type := {
  requested : list Q;
  outcome : option (Exit * list A)
}.
Arguments requested {A} _.
Arguments outcome {A} _.

Definition running {A : Type} (log : list Q) : Run A :=
  {| requested := log; outcome := None |}.

Definition returned {A : Type} (log : list Q) (e : Exit) (res : list A) : Run A :=
  {| requested := log; outcome := Some (e, res) |}.

(** ** Helpers shared by the revisions *)

(** [v || EmptyString] for a possibly absent string. *)
Definition or_empty (v : option string) : string :=
  match v with Some s => s | None => EmptyString end.

(** [normalizeUrl] (part_001). *)
Definition normalizeUrl `{Runtime} (url : string) : string :=
  toLowerCase (trim url).

Definition containsAvoidKeyword `{Runtime} (text : string)
           (avoidKeywords : list string) : bool :=
  existsb (fun keyword => includes (toLowerCase text) (toLowerCase keyword))
          avoidKeywords.

(** A [Date] object: its time value, [None] for an invalid date (NaN). *)
Definition JSDate : Type := option Z.

(** [a < b] on [Date] objects: false as soon as one is invalid. *)
Definition Date_lt (a b : JSDate) : bool :=
  match a, b with
  | Some x, Some y => (x <? y)%Z
  | _, _ => false
  end.

(** [tag[key]] when it is truthy. *)
Definition truthy_field (tag : gmap string string) (key : string) : option string :=
  match tag !! key with
  | Some v => if truthy v then Some v else None
  | None => None
  end.

Definition escapeCSV (str : string) : string := dq +:+ replace_quotes str +:+ dq.

Definition header : string := "Title,URL" +:+ nl.

(** [fs.appendFileSync(file, data)]: creates the file when absent. *)
Definition appendFileSync (file : option string) (data : string) : option string :=
  Some (or_empty file +:+ data).

(** [appendToCSV] (googleSearch.js, part_001) on the CSV file. *)
Definition appendToCSV (results : list ResultRecord) (file : option string)
  : option string :=
  let fileExists := match file with Some _ => true | None => false end in
  let csvData :=
    fold_left
      (fun csvData result =>
         csvData +:+ escapeCSV (Title result) +:+ "," +:+ escapeCSV (URL result) +:+ nl)
      results EmptyString in
  let csvData := if negb fileExists then header +:+ csvData else csvData in
  appendFileSync file csvData.

(** [saveProcessedUrls] (googleSearch.js, part_001) on the URL log. *)
Definition saveProcessedUrls (newUrls : list string) (file : option string)
  : option string :=
  match newUrls with
  | [] => file
  | _ => appendFileSync file (join nl newUrls +:+ nl)
  end.

(** The inverse of the global replace: pairs of double quotes collapse. *)
Fixpoint collapse_quotes (s : string) : string :=
  match s with
  | String a (String b r as t) =>
      if Ascii.eqb a dquote && Ascii.eqb b dquote
      then String dquote (collapse_quotes r)
      else String a (collapse_quotes t)
  | _ => s
  end.

(** *** The query builder of googleSearch.js and part_001 *)

Definition quoted (k : string) : string := dq +:+ k +:+ dq.
Definition site (domain : string) : string := "site:" +:+ domain.

Definition buildQuery (c : SearchCriteria) : string :=
  let intitlePart :=
    match intitleKeywords c with
    | Some ((_ :: _) as l) => "intitle:(" +:+ join " OR " (map quoted l) +:+ ")"
    | _ => EmptyString
    end in
  let keywordsPart :=
    match keywords c with
    | Some ((_ :: _) as l) => "(" +:+ join " OR " (map quoted l) +:+ ")"
    | _ => EmptyString
    end in
  let domainsPart :=
    match domains c with
    | Some ((_ :: _) as l) => "(" +:+ join " OR " (map site l) +:+ ")"
    | _ => EmptyString
    end in
  let locationsPart :=
    match locations c with
    | Some ((_ :: _) as l) => "(" +:+ join " OR " (map quoted l) +:+ ")"
    | _ => EmptyString
    end in
  let excludePart :=
    match avoidKeywords c with
    | Some ((_ :: _) as l) => "-(" +:+ join " OR " (map quoted l) +:+ ")"
    | _ => EmptyString
    end in
  let datePart :=
    match minDate c with
    | Some d => if truthy d then "after:" +:+ d else EmptyString
    | None => EmptyString
    end in
  join " " (List.filter truthy
              [intitlePart; keywordsPart; domainsPart; locationsPart;
               excludePart; datePart]).

Module Part002.

(** [buildQuery] of part_002: the three lists are mapped unguarded, an
    absent one raises a TypeError ([None]). *)
Definition quoteJoin (arr : list string) : string :=
  "(" +:+ join " OR " (map quoted arr) +:+ ")".

Definition buildQuery (c : SearchCriteria) : option string :=
  match keywords c, domains c, locations c with
  | Some kw, Some dm, Some loc =>
      let keywordsPart := quoteJoin kw in
      let domainsPart := "(" +:+ join " OR " (map site dm) +:+ ")" in
      let locationsPart := quoteJoin loc in
      let datePart :=
        match minDate c with
        | Some d => if truthy d then "after:" +:+ d else EmptyString
        | None => EmptyString
        end in
      Some (join " " (List.filter truthy
                        [keywordsPart; domainsPart; locationsPart; datePart]))
  | _, _, _ => None
  end.

End Part002.

(** *** The query the specification describes

    Section 4.1 in its own words: one clause per non-empty category, in a
    fixed order, single spaces between clauses, nothing for an empty or
    absent category.  [buildQuery] is compared with it below. *)

Inductive Category : Type :=
| TitleKeywords
| Keywords
| Domains
| Locations
| AvoidKeywords
| MinimumDate.

Definition category_order : list Category :=
  [TitleKeywords; Keywords; Domains; Locations; AvoidKeywords; MinimumDate].

(** The terms of a list category; an absent category has none. *)
Definition terms (arr : option (list string)) : list string :=
  match arr with Some l => l | None => [] end.

(** A parenthesized OR-group. *)
Definition or_group (ts : list string) : string :=
  "(" +:+ join " OR " ts +:+ ")".

(** The clause of a list category: none when the category is empty. *)
Definition group_clause (prefix : string) (wrap : string -> string)
           (arr : option (list string)) : option string :=
  match terms arr with
  | [] => None
  | ts => Some (prefix +:+ or_group (map wrap ts))
  end.

Definition spec_clause (c : SearchCriteria) (cat : Category) : option string :=
  match cat with
  | TitleKeywords => group_clause "intitle:" quoted (intitleKeywords c)
  | Keywords => group_clause EmptyString quoted (keywords c)
  | Domains => group_clause EmptyString site (domains c)
  | Locations => group_clause EmptyString quoted (locations c)
  | AvoidKeywords => group_clause "-" quoted (avoidKeywords c)
  | MinimumDate =>
      match minDate c with
      | Some d => if truthy d then Some ("after:" +:+ d) else None
      | None => None
      end
  end.

Definition spec_query (c : SearchCriteria) : string :=
  join " " (omap (spec_clause c) category_order).

(** ** The fetch loops *)

Section Fetch.

Context `{Runtime}.

(** [new Date(s)]: the time value of the date, [None] when invalid. *)
Variable Date_parse : string -> JSDate.
Variable remote : Remote.
Variable config : Config.

(** [getPublishedDate]: the loop over [meta]. *)
Fixpoint scan_metatags (meta : list (gmap string string)) : option JSDate :=
  match meta with
  | [] => None
  | tag :: rest =>
      match truthy_field tag "article:published_time" with
      | Some v => Some (Date_parse v)
      | None =>
          match truthy_field tag "og:published_time" with
          | Some v => Some (Date_parse v)
          | None => scan_metatags rest
          end
      end
  end.

(** [getPublishedDate]; [None] is [null]. *)
Definition getPublishedDate (item : Item) : option JSDate :=
  match pagemap item with
  | Some pm =>
      match metatags pm with
      | Some meta => scan_metatags meta
      | None => None
      end
  | None => None
  end.

(** [config.minDate ? new Date(config.minDate) : null] *)
Definition minDateObj : option JSDate :=
  match config_minDate config with
  | Some d => if truthy d then Some (Date_parse d) else None
  | None => None
  end.

(** The date test both revisions apply to an item:
    [minDateObj && (publishedDate && publishedDate < minDateObj)]. *)
Definition publishedBeforeMinDate (item : Item) : bool :=
  match minDateObj with
  | Some d =>
      match getPublishedDate item with
      | Some p => Date_lt p d
      | None => false
      end
  | None => false
  end.

(** *** googleSearch.js (and part_002): fetch all, then filter *)

Fixpoint fetchAllResults_loop (fuel : nat) (log : list Q) (startIndex : Q)
         (allItems : list Item) : Run Item :=
  let maxResults := or_Infinity (config_maxResults config) in
  match fuel with
  | O => running log
  | S fuel' =>
      if ge_js (length allItems) maxResults
      then returned log TargetReached allItems
      else
        let log' := log ++ [startIndex] in
        match remote (length log) startIndex with
        | Failure => returned log' FetchError allItems
        | Null => returned log' CaughtError allItems
        | Data None _ | Data (Some []) _ => returned log' NoItems allItems
        | Data (Some page) nextPage =>
            let allItems' := allItems ++ page in
            if ge_js (length allItems') maxResults
            then
              match set_length allItems' maxResults with
              | Some cut => returned log' TargetReached cut
              | None => returned log' CaughtError allItems'
              end
            else
              match nextPage with
              | NoNext => returned log' NoNextPage allItems'
              | EmptyNext => returned log' CaughtError allItems'
              | Next next =>
                  if Qeq_bool next 0 then returned log' NoNextPage allItems'
                  else if Qlt_bool 91 next
                       then returned log' CeilingExceeded allItems'
                       else fetchAllResults_loop fuel' log' next allItems'
              end
        end
  end.

Definition fetchAllResults (fuel : nat) : Run Item :=
  fetchAllResults_loop fuel [] 1%Q [].

(** The callback of [rawItems.reduce] in [main]. *)
Definition filter_step (acc : list ResultRecord) (item : Item)
  : list ResultRecord :=
  let title := or_empty (title item) in
  let url := or_empty (link item) in
  if containsAvoidKeyword title (config_avoidKeywords config) then acc
  else if publishedBeforeMinDate item then acc
  else acc ++ [{| Title := title; URL := url |}].

Definition filteredResults (rawItems : list Item) : list ResultRecord :=
  fold_left filter_step rawItems [].

(** *** part_001: fetch until enough new results *)

Variable processedUrls : gset string.

(** The [for (const item of data.items)] loop of [fetchNewResults]. *)
Fixpoint processItems (items : list Item) (newResults : list ResultRecord)
  : list ResultRecord :=
  let maxNewResults := config_maxResults config in
  match items with
  | [] => newResults
  | item :: rest =>
      let title := or_empty (title item) in
      let urlItem := or_empty (link item) in
      let normalized := normalizeUrl urlItem in
      if bool_decide (normalized ∈ processedUrls)
      then processItems rest newResults
      else if existsb (fun result =>
                         String.eqb (normalizeUrl (URL result)) normalized)
                      newResults
      then processItems rest newResults
      else if containsAvoidKeyword title (config_avoidKeywords config)
      then processItems rest newResults
      else if publishedBeforeMinDate item
      then processItems rest newResults
      else
        let newResults' := newResults ++ [{| Title := title; URL := urlItem |}] in
        if ge_js (length newResults') maxNewResults then newResults'
        else processItems rest newResults'
  end.

Fixpoint fetchNewResults_loop (fuel : nat) (log : list Q) (startIndex : Q)
         (newResults : list ResultRecord) : Run ResultRecord :=
  let maxNewResults := config_maxResults config in
  match fuel with
  | O => running log
  | S fuel' =>
      if lt_js (length newResults) maxNewResults
      then
        let log' := log ++ [startIndex] in
        match remote (length log) startIndex with
        | Failure => returned log' FetchError newResults
        | Null => returned log' Thrown newResults
        | Data None _ | Data (Some []) _ => returned log' NoItems newResults
        | Data (Some page) nextPage =>
            let newResults' := processItems page newResults in
            if ge_js (length newResults') maxNewResults
            then returned log' TargetReached newResults'
            else
              match nextPage with
              | NoNext => returned log' NoNextPage newResults'
              | EmptyNext => returned log' Thrown newResults'
              | Next next =>
                  if Qeq_bool next 0 then returned log' NoNextPage newResults'
                  else if Qlt_bool 91 next
                       then returned log' CeilingExceeded newResults'
                       else fetchNewResults_loop fuel' log' next newResults'
              end
        end
      else returned log TargetReached newResults
  end.

Definition fetchNewResults (fuel : nat) : Run ResultRecord :=
  fetchNewResults_loop fuel [] 1%Q [].

End Fetch.

(** *** googleSearch.js: the URL log and [main] *)

Module GoogleSearch.

(** [loadProcessedUrls]: the non-blank lines of the file, as they are. *)
Definition loadProcessedUrls `{Runtime} (file : option string) : gset string :=
  match file with
  | None => ∅
  | Some data =>
      list_to_set
        (List.filter (fun url => (0 <? String.length (trim url))%nat)
                     (split_lines data))
  end.

Section Main.

Context `{Runtime}.
Variable Date_parse : string -> JSDate.
Variable remote : Remote.
Variable config : Config.

(** [newResults] of [main], from the raw items and the loaded set. *)
Definition newResults (rawItems : list Item) (processedUrls : gset string)
  : list ResultRecord :=
  List.filter (fun result => negb (bool_decide (URL result ∈ processedUrls)))
              (filteredResults Date_parse config rawItems).

(** [main]: the records appended to the CSV log and the files
    afterwards; [None] while [fetchAllResults] has not returned. *)
Definition main (fuel : nat) (files : Files)
  : option (list ResultRecord * Files) :=
  match outcome (fetchAllResults remote config fuel) with
  | None => None
  | Some (_, rawItems) =>
      let processedUrls := loadProcessedUrls (processed_urls_txt files) in
      let newResults := newResults rawItems processedUrls in
      match newResults with
      | [] => Some ([], files)
      | _ :: _ =>
          let csv := appendToCSV newResults (google_search_results_csv files) in
          let newUrls := map URL newResults in
          Some (newResults,
                {| processed_urls_txt :=
                     saveProcessedUrls newUrls (processed_urls_txt files);
                   google_search_results_csv := csv |})
      end
  end.

End Main.

End GoogleSearch.

(** *** part_001: the URL log and [main] *)

Module Part001.

(** [loadProcessedUrls]: the non-blank lines of the file, normalized. *)
Definition loadProcessedUrls `{Runtime} (file : option string) : gset string :=
  match file with
  | None => ∅
  | Some data =>
      list_to_set
        (map normalizeUrl
             (List.filter (fun url => (0 <? String.length (trim url))%nat)
                          (split_lines data)))
  end.

Section Main.

Context `{Runtime}.
Variable Date_parse : string -> JSDate.
Variable remote : Remote.
Variable config : Config.

(** [main]: the records appended to the CSV log and the files
    afterwards; [None] while [fetchNewResults] has not ended.  When
    [fetchNewResults] throws, [main] is abandoned at its [await] and
    writes nothing. *)
Definition main (fuel : nat) (files : Files)
  : option (list ResultRecord * Files) :=
  let processedUrls := loadProcessedUrls (processed_urls_txt files) in
  match outcome (fetchNewResults Date_parse remote config processedUrls fuel) with
  | None => None
  | Some (Thrown, _) => Some ([], files)
  | Some (_, newResults) =>
      match newResults with
      | [] => Some ([], files)
      | _ :: _ =>
          let csv := appendToCSV newResults (google_search_results_csv files) in
          let newNormalizedUrls :=
            map (fun result => normalizeUrl (URL result)) newResults in
          Some (newResults,
                {| processed_urls_txt :=
                     saveProcessedUrls newNormalizedUrls
                                       (processed_urls_txt files);
                   google_search_results_csv := csv |})
      end
  end.

End Main.

End Part001.

(** ** The pagination scheme common to both loops

    Both loops run the same cycle: test the accumulator, request a page,
    stop on a failure or an empty page, take the page in, stop when full,
    follow the next-page offset up to the ceiling.  [paginate] is that
    cycle with the tests, the page handling and the fate of an exception
    left open; each loop is shown below to be an instance of it. *)

Section Paginate.

Context {A : Type}.
Variable remote : Remote.
(** the test at the head of the loop: go on? *)
Variable continue : list A -> bool.
(** what a page does to the accumulator *)
Variable absorb : list Item -> list A -> list A.
(** the test after a page: enough? *)
Variable full : list A -> bool.
(** how the loop ends when enough *)
Variable finish : list A -> Exit * list A.
(** how the loop ends on a TypeError raised by the document *)
Variable broken : Exit.

Fixpoint paginate (fuel : nat) (log : list Q) (start : Q) (acc : list A)
  : Run A :=
  match fuel with
  | O => running log
  | S fuel' =>
      if continue acc
      then
        let log' := log ++ [start] in
        match remote (length log) start with
        | Failure => returned log' FetchError acc
        | Null => returned log' broken acc
        | Data None _ | Data (Some []) _ => returned log' NoItems acc
        | Data (Some page) nextPage =>
            let acc' := absorb page acc in
            if full acc'
            then returned log' (fst (finish acc')) (snd (finish acc'))
            else
              match nextPage with
              | NoNext => returned log' NoNextPage acc'
              | EmptyNext => returned log' broken acc'
              | Next next =>
                  if Qeq_bool next 0 then returned log' NoNextPage acc'
                  else if Qlt_bool 91 next
                       then returned log' CeilingExceeded acc'
                       else paginate fuel' log' next acc'
              end
        end
      else returned log TargetReached acc
  end.

(** The response that justifies leaving the loop with [e]. *)
Definition exit_response (e : Exit) (r : Response) : Prop :=
  match e with
  | TargetReached => True
  | FetchError => r = Failure
  | NoItems => exists np, r = Data None np \/ r = Data (Some []) np
  | NoNextPage =>
      exists its, r = Data its NoNext \/
                  exists next, r = Data its (Next next) /\ (next == 0)%Q
  | CeilingExceeded => exists its next, r = Data its (Next next) /\ (91 < next)%Q
  | CaughtError | Thrown => r = Null \/ exists its, r = Data its EmptyNext
  end.

(** An exit is justified by the target, by the answer to the last request
    of the log, or, for an exception, by the target being no array
    length. *)
Definition exit_justified (target : jsnum) (e : Exit) (log : list Q) : Prop :=
  e = TargetReached \/
  (e = CaughtError /\ array_length target = false) \/
  exists log0 start,
    log = log0 ++ [start] /\ exit_response e (remote (length log0) start).

End Paginate.

(** The endpoint always points to a later page: every next-page offset it
    gives in answer to a request at an integer offset is an integer
    greater than that offset. *)
Definition advancing (remote : Remote) : Prop :=
  forall n start its next,
    whole start ->
    remote n start = Data its (Next next) -> whole next /\ (start < next)%Q.

(** How [fetchAllResults] ends when it has enough: the array is cut, or
    the cut throws and the [catch] breaks the loop. *)
Definition fetchAllResults_finish (config : Config) (acc : list Item)
  : Exit * list Item :=
  match set_length acc (or_Infinity (config_maxResults config)) with
  | Some cut => (TargetReached, cut)
  | None => (CaughtError, acc)
  end.

(** The item is on a page served in answer to a request of the log. *)
Definition served (remote : Remote) (log : list Q) (item : Item) : Prop :=
  exists k start page np,
    log !! k = Some start /\
    remote k start = Data (Some page) np /\
    In item page.


(** ** Concrete data for the examples *)

(** [new Date(s)] on the strings of the examples: a calendar date in the
    date-only form YYYY-MM-DD is midnight UTC of that day, in milliseconds
    since the epoch, and a string that holds no date at all is an invalid
    date.  It is no model of [new Date] on other strings (date-time forms,
    month names), which the examples do not use and the theorems, stated
    for any [Date_parse], do not depend on. *)
Definition digit (c : ascii) : option Z :=
  let n := nat_of_ascii c in
  if (48 <=? n)%nat && (n <=? 57)%nat then Some (Z.of_nat (n - 48)) else None.

Fixpoint digits (acc : Z) (cs : list ascii) : option Z :=
  match cs with
  | [] => Some acc
  | c :: r =>
      match digit c with
      | Some d => digits (10 * acc + d)%Z r
      | None => None
      end
  end.

(** Days from 1970-01-01 to the civil date [y]-[m]-[d]. *)
Definition days_from_civil (y m d : Z) : Z :=
  let y' := (if m <=? 2 then y - 1 else y)%Z in
  let era := (y' / 400)%Z in
  let yoe := (y' - era * 400)%Z in
  let mp := (if 2 <? m then m - 3 else m + 9)%Z in
  let doy := ((153 * mp + 2) / 5 + d - 1)%Z in
  let doe := (yoe * 365 + yoe / 4 - yoe / 100 + doy)%Z in
  (era * 146097 + doe - 719468)%Z.

Definition iso_date_parse (s : string) : JSDate :=
  match list_ascii_of_string s with
  | [y1; y2; y3; y4; h1; m1; m2; h2; d1; d2] =>
      if Ascii.eqb h1 "-"%char && Ascii.eqb h2 "-"%char then
        match digits 0 [y1; y2; y3; y4], digits 0 [m1; m2], digits 0 [d1; d2] with
        | Some y, Some m, Some d =>
            if ((1 <=? m) && (m <=? 12) && (1 <=? d) && (d <=? 31))%Z
            then Some (days_from_civil y m d * 86400000)%Z
            else None
        | _, _, _ => None
        end
      else None
  | _ => None
  end.

(** An item with a title and a link, and no metadata. *)
Definition plain_item (t l : string) : Item :=
  {| title := Some t; link := Some l; pagemap := None |}.

(** An item whose metadata carries [og:published_time]. *)
Definition dated_item (t l d : string) : Item :=
  {| title := Some t; link := Some l;
     pagemap := Some {| metatags := Some [ {[ "og:published_time" := d ]} ] |} |}.

(** A configuration with a target and nothing to filter on. *)
Definition plain_config (m : nat) : Config :=
  {| config_avoidKeywords := []; config_minDate := None;
     config_maxResults := num m |}.

(** The configuration of the README. *)
Definition readme_config : Config :=
  {| config_avoidKeywords := ["government clearance"];
     config_minDate := Some "2025-01-01";
     config_maxResults := num 10 |}.

Definition readme_criteria : SearchCriteria :=
  {| intitleKeywords := Some ["frontend developer"];
     keywords := Some ["experienced"; "senior"];
     domains := Some ["workday.com"; "icims.com"];
     locations := Some ["Remote"; "USA"];
     minDate := Some "2025-01-01";
     avoidKeywords := Some ["government clearance"] |}.

(** An endpoint that serves one page and has no more. *)
Definition one_page (page : list Item) : Remote :=
  fun n _ =>
    match n with
    | O => Data (Some page) NoNext
    | S _ => Data None NoNext
    end.

(** An endpoint that serves the pages of a list, ten offsets apart, as
    long as the request asks for the page it is at. *)
Definition paged (pages : list (list Item)) : Remote :=
  fun n start =>
    match pages !! n with
    | Some page => Data (Some page) (Next (start + 10)%Q)
    | None => Data None NoNext
    end.

(** An endpoint that serves the same page for ever and points back to the
    first offset. *)
Definition looping (page : list Item) : Remote :=
  fun _ _ => Data (Some page) (Next 1%Q).

(** An endpoint whose every document decodes to [null]. *)
Definition null_remote : Remote := fun _ _ => Null.

(** An endpoint that serves a page and then fails. *)
Definition failing_after (page : list Item) : Remote :=
  fun n _ =>
    match n with
    | O => Data (Some page) (Next 11%Q)
    | S _ => Failure
    end.

Definition files_with_log (urls : string) : Files :=
  {| processed_urls_txt := Some urls; google_search_results_csv := None |}.

(** The CSV row of a record, as the specification describes it: both
    fields between double quotes, a comma between them, a line feed. *)
Definition csv_row (r : ResultRecord) : string :=
  dq +:+ replace_quotes (Title r) +:+ dq +:+ "," +:+
  dq +:+ replace_quotes (URL r) +:+ dq +:+ nl.

Definition csv_rows (results : list ResultRecord) : string :=
  join EmptyString (map csv_row results).

(** The title of the specification's avoid-keyword example. *)
Definition cleared_title : string :=
  "Senior Frontend Developer (Cleared — Government Clearance Required)".

(** Its lower-case form: the letters are ASCII, the dash has no case. *)
Definition lowered_cleared_title : string :=
  "senior frontend developer (cleared — government clearance required)".

(** The title of the specification's CSV example, and its serialization. *)
Definition quoted_title : string :=
  "Senior " +:+ dq +:+ "Frontend" +:+ dq +:+ " Dev".

Definition quoted_title_csv : string :=
  dq +:+ "Senior " +:+ dq +:+ dq +:+ "Frontend" +:+ dq +:+ dq +:+ " Dev" +:+ dq.

(** The endpoint [remote] with its [k]-th answer replaced by an empty
    document: the sequence of pages ends before that request. *)
Definition stop_at (k : nat) (remote : Remote) : Remote :=
  fun n start => if (n =? k)%nat then Data None NoNext else remote n start.

(** The array a run has returned, if it has; a run that has thrown
    returns none. *)
Definition result {A : Type} (r : Run A) : option (list A) :=
  match outcome r with
  | Some (Thrown, _) => None
  | Some (_, res) => Some res
  | None => None
  end.

(** ** Vocabulary of the statements *)

(** The record an item is turned into when it is accepted. *)
Definition record_of (item : Item) : ResultRecord :=
  {| Title := or_empty (title item); URL := or_empty (link item) |}.

(** The deduplication key of a record. *)
Definition key `{Runtime} (r : ResultRecord) : string := normalizeUrl (URL r).

(** The item passes the avoid-keyword and the date tests. *)
Definition passes `{Runtime} (Date_parse : string -> JSDate) (config : Config)
           (item : Item) : bool :=
  negb (containsAvoidKeyword (or_empty (title item)) (config_avoidKeywords config))
  && negb (publishedBeforeMinDate Date_parse config item).

(** The item is neither in the processed set nor a duplicate of a record
    of the accumulator, by normalized URL. *)
Definition unseen `{Runtime} (processedUrls : gset string) (acc : list ResultRecord)
           (item : Item) : bool :=
  negb (bool_decide (key (record_of item) ∈ processedUrls))
  && negb (existsb (fun result => String.eqb (key result) (key (record_of item)))
                   acc).

(** The configuration with another target. *)
Definition with_maxResults (m : jsnum) (config : Config) : Config :=
  {| config_avoidKeywords := config_avoidKeywords config;
     config_minDate := config_minDate config;
     config_maxResults := m |}.

(** The configuration with the same target and nothing to filter on. *)
Definition unfiltered (config : Config) : Config :=
  {| config_avoidKeywords := []; config_minDate := None;
     config_maxResults := config_maxResults config |}.

(** A configuration without a target and with nothing to filter on. *)
Definition no_target : Config :=
  {| config_avoidKeywords := []; config_minDate := None;
     config_maxResults := undefined |}.

(** All the items the endpoint serves before a stop condition other than
    the target: what [fetchAllResults] returns without a target. *)
Definition all_served (remote : Remote) (fuel : nat) : option (list Item) :=
  result (fetchAllResults remote no_target fuel).

(** The configuration with no minimum date. *)
Definition without_minDate (config : Config) : Config :=
  {| config_avoidKeywords := config_avoidKeywords config;
     config_minDate := None;
     config_maxResults := config_maxResults config |}.

(** An endpoint whose only item has a URL in capitals, and a URL log that
    holds the same URL in lower case. *)
Definition capitals_remote : Remote :=
  one_page [plain_item "Dev" "HTTP://A.com/job"].

Definition capitals_files : Files :=
  files_with_log ("http://a.com/job" +:+ nl).

(** A page with a processed URL and the same new URL twice, and the URL
    log that goes with it. *)
Definition repost_page : list Item :=
  [plain_item "Seen" "http://a.com/1";
   plain_item "Dev" "http://a.com/2";
   plain_item "Dev (repost)" "http://a.com/2"].

Definition repost_files : Files :=
  files_with_log ("http://a.com/1" +:+ nl).

(** Two pages of distinct, normalized URLs. *)
Definition two_pages : list (list Item) :=
  [[plain_item "Dev" "http://a.com/1"; plain_item "Ops" "http://a.com/2"];
   [plain_item "QA" "http://a.com/3"]].

(** An item published on 2024-12-01. *)
Definition december_item : Item :=
  dated_item "Dev" "http://a.com/job" "2024-12-01".

(** ** The script of part_002 *)

Module Part002Script.

Section Main.

Context `{Runtime}.
Variable Date_parse : string -> JSDate.
Variable remote : Remote.
Variable config : Config.

(** [csvContent] of [main]: the header, then the rows joined by line
    feeds, with no line feed after the last one. *)
Definition csvContent (filteredResults : list ResultRecord) : string :=
  let csvRows :=
    map (fun result => escapeCSV (Title result) +:+ "," +:+ escapeCSV (URL result))
        filteredResults in
  header +:+ join nl csvRows.

(** [main] of part_002: the filtered results and the CSV file once
    [fs.writeFile] has completed (the file is replaced, not appended to);
    [None] while [fetchAllResults] has not returned. *)
Definition main (fuel : nat) (csv : option string)
  : option (list ResultRecord * option string) :=
  match outcome (fetchAllResults remote config fuel) with
  | None => None
  | Some (_, rawItems) =>
      let filteredResults := filteredResults Date_parse config rawItems in
      match filteredResults with
      | [] => Some ([], csv)
      | _ :: _ => Some (filteredResults, Some (csvContent filteredResults))
      end
  end.

End Main.

End Part002Script.

(** ** Vocabulary of the statements on the URL log *)

(** The string holds no line feed. *)
Fixpoint newline_free (s : string) : bool :=
  match s with
  | EmptyString => true
  | String c r => negb (Ascii.eqb c newline) && newline_free r
  end.

(** The test both [loadProcessedUrls] apply to a line. *)
Definition nonblank `{Runtime} (url : string) : bool :=
  (0 <? String.length (trim url))%nat.

(** The URL log is absent, empty, or ends with a line feed: what
    [saveProcessedUrls] leaves behind. *)
Definition log_closed (file : option string) : Prop :=
  match file with
  | None => True
  | Some data => data = EmptyString \/ exists s, data = s +:+ nl
  end.

(** A criteria record with every category absent. *)
Definition no_criteria : SearchCriteria :=
  {| intitleKeywords := None; keywords := None; domains := None;
     locations := None; minDate := None; avoidKeywords := None |}.

(** The category is empty or absent. *)
Definition category_empty (c : SearchCriteria) (cat : Category) : Prop :=
  match cat with
  | TitleKeywords => terms (intitleKeywords c) = []
  | Keywords => terms (keywords c) = []
  | Domains => terms (domains c) = []
  | Locations => terms (locations c) = []
  | AvoidKeywords => terms (avoidKeywords c) = []
  | MinimumDate => or_empty (minDate c) = EmptyString
  end.

(** The criteria part_002 reads: no title keywords, no avoid keywords. *)
Definition part002_view (c : SearchCriteria) : SearchCriteria :=
  {| intitleKeywords := None; keywords := keywords c; domains := domains c;
     locations := locations c; minDate := minDate c; avoidKeywords := None |}.

(** An item with neither title nor link nor metadata. *)
Definition bare_item : Item :=
  {| title := None; link := None; pagemap := None |}.

(** ** Reading the CSV log back

    A reader for what [appendToCSV] writes, used to show that the rows
    determine the records. *)

(** The field that starts after an opening double quote, and what follows
    its closing double quote. *)
Fixpoint read_field (s : string) : option (string * string) :=
  match s with
  | EmptyString => None
  | String a r =>
      if Ascii.eqb a dquote then
        match r with
        | String b r' =>
            if Ascii.eqb b dquote then
              match read_field r' with
              | Some (f, rest) => Some (String dquote f, rest)
              | None => None
              end
            else Some (EmptyString, r)
        | EmptyString => Some (EmptyString, EmptyString)
        end
      else
        match read_field r with
        | Some (f, rest) => Some (String a f, rest)
        | None => None
        end
  end.

(** The record of the row a string starts with, and what follows the
    row. *)
Definition read_row (s : string) : option (ResultRecord * string) :=
  match s with
  | String q r =>
      if Ascii.eqb q dquote then
        match read_field r with
        | Some (t, String c (String q' r')) =>
            if Ascii.eqb c ","%char && Ascii.eqb q' dquote then
              match read_field r' with
              | Some (u, String n rest) =>
                  if Ascii.eqb n newline
                  then Some ({| Title := t; URL := u |}, rest)
                  else None
              | _ => None
              end
            else None
        | _ => None
        end
      else None
  | EmptyString => None
  end.

(** The runtime of the examples: the built-ins on ASCII text. *)
Definition ascii_runtime : Runtime :=
  {| toLowerCase := ascii_toLowerCase; trim := ascii_trim |}.

(** * Properties *)

(** ** Strings *)

#[local] Arguments String.append !s1 s2 : simpl nomatch.

Section Properties.

(** The string built-ins of the runtime: any. *)
Context {js : Runtime}.

Lemma append_assoc (a b c : string) : (a +:+ b) +:+ c = a +:+ (b +:+ c).
Proof. induction a as [|x a IH]; simpl; [reflexivity | now f_equal]. Qed.

Lemma append_empty_r (a : string) : a +:+ EmptyString = a.
Proof. induction a as [|x a IH]; simpl; [reflexivity | now f_equal]. Qed.

Lemma startsWith_spec (s p : string) :
  startsWith s p = true <-> exists post, s = p +:+ post.
Proof.
  revert s. induction p as [|a p IH]; intros s; simpl.
  - split; [intros _; now exists s | reflexivity].
  - destruct s as [|b s].
    + split; [discriminate | intros [post H]; discriminate].
    + rewrite andb_true_iff, Ascii.eqb_eq, IH. split.
      * intros [-> [post ->]]. now exists post.
      * intros [post H]. injection H as -> ->. split; [reflexivity | now exists post].
Qed.

Lemma includes_spec (s k : string) : includes s k = true <-> Substring k s.
Proof.
  unfold Substring. induction s as [|c s IH].
  - simpl. rewrite orb_false_r, startsWith_spec. split.
    + intros [post H]. now exists EmptyString, post.
    + intros [pre [post H]]. destruct pre; [now exists post | discriminate].
  - cbn [includes]. rewrite orb_true_iff, startsWith_spec, IH. split.
    + intros [[post H] | [pre [post H]]].
      * now exists EmptyString, post.
      * exists (String c pre), post. simpl. now rewrite H.
    + intros [pre [post H]]. destruct pre as [|c' pre].
      * left. now exists post.
      * right. injection H as _ H. now exists pre, post.
Qed.

Lemma containsAvoidKeyword_spec (text : string) (kws : list string) :
  containsAvoidKeyword text kws = true <->
  exists k, In k kws /\ Substring (toLowerCase k) (toLowerCase text).
Proof.
  unfold containsAvoidKeyword. rewrite existsb_exists.
  split; intros [k [Hin H]]; exists k; (split; [exact Hin |]);
    now apply includes_spec.
Qed.

Lemma collapse_other (c : ascii) (t : string) :
  Ascii.eqb c dquote = false ->
  collapse_quotes (String c t) = String c (collapse_quotes t).
Proof. intros E. destruct t; simpl; [reflexivity | now rewrite E]. Qed.

Lemma collapse_pair (t : string) :
  collapse_quotes (String dquote (String dquote t))
  = String dquote (collapse_quotes t).
Proof. reflexivity. Qed.

Lemma collapse_replace_quotes (s : string) :
  collapse_quotes (replace_quotes s) = s.
Proof.
  induction s as [|c s IH]; [reflexivity |].
  cbn [replace_quotes]. destruct (Ascii.eqb c dquote) eqn:E.
  - apply Ascii.eqb_eq in E. subst c. now rewrite collapse_pair, IH.
  - now rewrite collapse_other, IH.
Qed.

Lemma fold_rows (results : list ResultRecord) (acc : string) :
  fold_left
    (fun csvData result =>
       csvData +:+ escapeCSV (Title result) +:+ "," +:+
       escapeCSV (URL result) +:+ nl)
    results acc
  = acc +:+ csv_rows results.
Proof.
  revert acc. induction results as [|r rs IH]; intros acc.
  - simpl. now rewrite append_empty_r.
  - cbn [fold_left]. rewrite IH. rewrite append_assoc. f_equal.
    unfold csv_rows, join. cbn [map String.concat].
    destruct (map csv_row rs) as [|r' rs'] eqn:E.
    + apply map_eq_nil in E. subst rs. simpl. unfold csv_row, escapeCSV.
      now rewrite !append_assoc, append_empty_r.
    + rewrite <- E. unfold csv_row, escapeCSV. simpl.
      now rewrite !append_assoc.
Qed.

Lemma csv_rows_cons (r : ResultRecord) (rs : list ResultRecord) :
  csv_rows (r :: rs) = csv_row r +:+ csv_rows rs.
Proof.
  unfold csv_rows, join. cbn [map String.concat].
  destruct (map csv_row rs) eqn:E; [| reflexivity].
  cbn. now rewrite append_empty_r.
Qed.

Lemma csv_rows_app (rs1 rs2 : list ResultRecord) :
  csv_rows (rs1 ++ rs2) = csv_rows rs1 +:+ csv_rows rs2.
Proof.
  induction rs1 as [|r rs1 IH]; [reflexivity |].
  cbn [app]. now rewrite !csv_rows_cons, IH, append_assoc.
Qed.

(** ** The query builder *)

Lemma join_cons_truthy (sep x : string) (xs : list string) :
  truthy x = true -> truthy (join sep (x :: xs)) = true.
Proof.
  intros H. unfold join. destruct xs; simpl; [exact H |].
  destruct x; [discriminate | reflexivity].
Qed.

(** A clause of a list category is a non-empty group around at least one
    term. *)
Lemma group_clause_Some (prefix : string) (wrap : string -> string)
      (arr : option (list string)) (s : string) :
  (forall k, truthy (wrap k) = true) ->
  group_clause prefix wrap arr = Some s ->
  exists t ts,
    terms arr = t :: ts /\
    s = prefix +:+ "(" +:+ join " OR " (map wrap (t :: ts)) +:+ ")" /\
    truthy (join " OR " (map wrap (t :: ts))) = true.
Proof.
  intros Hw. unfold group_clause. destruct (terms arr) as [|t ts]; [discriminate |].
  intros [= <-]. exists t, ts. repeat split.
  apply join_cons_truthy, Hw.
Qed.

(** The part [buildQuery] computes for a list category is the clause of
    the specification, or the empty string when there is none. *)
Lemma part_group (prefix : string) (wrap : string -> string)
      (arr : option (list string)) :
  match arr with
  | Some ((_ :: _) as l) => prefix +:+ "(" +:+ join " OR " (map wrap l) +:+ ")"
  | _ => EmptyString
  end = or_empty (group_clause prefix wrap arr).
Proof. destruct arr as [[|x l]|]; reflexivity. Qed.

Lemma spec_clause_truthy (c : SearchCriteria) (cat : Category) (s : string) :
  spec_clause c cat = Some s -> truthy s = true.
Proof.
  destruct cat; simpl;
    try (unfold group_clause; destruct (terms _); [discriminate |];
         intros [= <-]; reflexivity).
  destruct (minDate c) as [d|]; [| discriminate].
  destruct (truthy d) eqn:E; [| discriminate]. intros [= <-]. reflexivity.
Qed.

(** Dropping the falsy parts keeps exactly the clauses that exist. *)
Lemma filter_truthy_parts (os : list (option string)) :
  Forall (fun o => forall s, o = Some s -> truthy s = true) os ->
  List.filter truthy (map or_empty os) = omap id os.
Proof.
  induction 1 as [|o os Ho _ IH]; [reflexivity |].
  cbn [map List.filter omap]. destruct o as [s|]; simpl.
  - rewrite (Ho s eq_refl). now rewrite IH.
  - exact IH.
Qed.

Lemma omap_id_map {A B : Type} (f : A -> option B) (l : list A) :
  omap id (map f l) = omap f l.
Proof.
  induction l as [|a l IH]; [reflexivity |].
  cbn [map]. change (omap id (f a :: map f l)) with
    (match f a with Some y => y :: omap id (map f l) | None => omap id (map f l) end).
  change (omap f (a :: l)) with
    (match f a with Some y => y :: omap f l | None => omap f l end).
  now rewrite IH.
Qed.

Lemma buildQuery_spec_query (c : SearchCriteria) : buildQuery c = spec_query c.
Proof.
  unfold buildQuery, spec_query. f_equal.
  rewrite <- (omap_id_map (spec_clause c) category_order).
  rewrite <- filter_truthy_parts.
  - unfold category_order. cbn [map spec_clause].
    rewrite <- !part_group. simpl (EmptyString +:+ _).
    repeat f_equal.
    destruct (minDate c) as [d|]; [destruct (truthy d) |]; reflexivity.
  - apply Forall_forall. intros o Hin s ->.
    apply list_elem_of_In, in_map_iff in Hin. destruct Hin as [cat [H _]].
    now apply spec_clause_truthy in H.
Qed.

Lemma Part002_buildQuery_spec (c : SearchCriteria) (k d l : string)
      (ks ds ls : list string) :
  keywords c = Some (k :: ks) ->
  domains c = Some (d :: ds) ->
  locations c = Some (l :: ls) ->
  Part002.buildQuery c
  = Some (join " " (omap (spec_clause c) [Keywords; Domains; Locations; MinimumDate])).
Proof.
  intros Hk Hd Hl. unfold Part002.buildQuery. rewrite Hk, Hd, Hl.
  f_equal. f_equal.
  rewrite <- (omap_id_map (spec_clause c)).
  rewrite <- filter_truthy_parts.
  - cbn [map spec_clause]. unfold group_clause. rewrite Hk, Hd, Hl.
    cbn [terms or_empty]. unfold Part002.quoteJoin, or_group.
    simpl (EmptyString +:+ _). repeat f_equal.
    destruct (minDate c) as [m|]; [destruct (truthy m) |]; reflexivity.
  - apply Forall_forall. intros o Hin s ->.
    apply list_elem_of_In, in_map_iff in Hin. destruct Hin as [cat [H _]].
    now apply spec_clause_truthy in H.
Qed.

(** ** Offsets *)

Lemma Qlt_bool_true (a b : Q) : Qlt_bool a b = true <-> (a < b)%Q.
Proof.
  unfold Qlt_bool. rewrite negb_true_iff. split.
  - intros E. apply Qnot_le_lt. intros Hle. apply Qle_bool_iff in Hle.
    congruence.
  - intros Hlt. destruct (Qle_bool b a) eqn:E; [| reflexivity].
    apply Qle_bool_iff in E. exfalso. exact (Qlt_not_le _ _ Hlt E).
Qed.

Lemma Qlt_bool_false (a b : Q) : Qlt_bool a b = false <-> (b <= a)%Q.
Proof. unfold Qlt_bool. rewrite negb_false_iff. apply Qle_bool_iff. Qed.

Lemma Qeq_bool_false (a b : Q) : Qeq_bool a b = false -> ~ (a == b)%Q.
Proof. intros E Heq. apply Qeq_bool_iff in Heq. congruence. Qed.

Lemma whole_1 : whole 1.
Proof. exists 1%Z. reflexivity. Qed.

Lemma whole_lt (a b : Q) (x y : Z) :
  (a == inject_Z x)%Q -> (b == inject_Z y)%Q -> (a < b)%Q -> (x < y)%Z.
Proof. intros Ha Hb Hlt. rewrite Ha, Hb in Hlt. now rewrite <- Zlt_Qlt in Hlt. Qed.

Lemma whole_le_91 (a : Q) (x : Z) :
  (a == inject_Z x)%Q -> (a <= 91)%Q -> (x <= 91)%Z.
Proof.
  intros Ha Hle. rewrite Ha in Hle. change 91%Q with (inject_Z 91) in Hle.
  now rewrite <- Zle_Qle in Hle.
Qed.

(** ** The pagination scheme *)

(** Turn the boolean tests on offsets in the context into propositions. *)
Ltac offsets :=
  repeat match goal with
         | H : Qeq_bool _ _ = true |- _ => apply Qeq_bool_iff in H
         | H : Qeq_bool _ _ = false |- _ => apply Qeq_bool_false in H
         | H : Qlt_bool _ _ = true |- _ => apply Qlt_bool_true in H
         | H : Qlt_bool _ _ = false |- _ => apply Qlt_bool_false in H
         end.

(** Split the goal along every test of the turn of a loop it shows. *)
Ltac branches :=
  repeat match goal with
         | |- context [match ?x with _ => _ end] => destruct x eqn:?
         end;
  cbn [requested outcome returned running] in *.

Section PaginateFacts.

Context {A : Type}.
Variable remote : Remote.
Variable continue : list A -> bool.
Variable absorb : list Item -> list A -> list A.
Variable full : list A -> bool.
Variable finish : list A -> Exit * list A.
Variable broken : Exit.

Abbreviation loop := (paginate remote continue absorb full finish broken).

(** No request starts beyond the ceiling. *)
Lemma paginate_requested_bound (fuel : nat) (log : list Q) (start : Q)
      (acc : list A) :
  Forall (fun s => (s <= 91)%Q) log -> (start <= 91)%Q ->
  Forall (fun s => (s <= 91)%Q) (requested (loop fuel log start acc)).
Proof.
  revert log start acc. induction fuel as [|fuel IH]; intros log start acc Hlog Hs.
  - exact Hlog.
  - assert (Hlog' : Forall (fun s => (s <= 91)%Q) (log ++ [start]))
      by (apply Forall_app; split; [exact Hlog | now constructor]).
    cbn [paginate]. branches; offsets; try assumption.
    apply IH; assumption.
Qed.

(** The loop leaves by the target, because the target is no array length,
    or on the answer to its last request. *)
Lemma paginate_exit_justified (target : jsnum) (fuel : nat) (log : list Q)
      (start : Q) (acc : list A) (e : Exit) (res : list A) :
  (forall acc, fst (finish acc) = TargetReached \/
               (fst (finish acc) = CaughtError /\ array_length target = false)) ->
  broken = CaughtError \/ broken = Thrown ->
  outcome (loop fuel log start acc) = Some (e, res) ->
  exit_justified remote target e (requested (loop fuel log start acc)).
Proof.
  intros Hfin Hbroken. revert log start acc.
  induction fuel as [|fuel IH]; intros log start acc; [discriminate |].
  cbn [paginate]. destruct (continue acc); [| intros [= <- <-]; now left].
  assert (Hlast : forall e',
             exit_response e' (remote (length log) start) ->
             exit_justified remote target e' (log ++ [start])).
  { intros e' He'. right; right. exists log, start. now split. }
  destruct (remote (length log) start) as [| |[[|i page]|] np] eqn:Hr;
    cbn [requested outcome returned].
  - intros [= <- <-]. apply Hlast. reflexivity.
  - intros [= <- <-]. apply Hlast.
    destruct Hbroken as [-> | ->]; now left.
  - intros [= <- <-]. apply Hlast. exists np. now right.
  - destruct (full _).
    + intros [= <- <-].
      destruct (Hfin (absorb (i :: page) acc)) as [-> | [-> Ht]];
        [now left | right; left; now split].
    + destruct np as [| | next].
      * intros [= <- <-]. apply Hlast.
        exists (Some (i :: page)). now left.
      * intros [= <- <-]. apply Hlast.
        destruct Hbroken as [-> | ->]; right; eauto.
      * destruct (Qeq_bool next 0) eqn:E0.
        -- intros [= <- <-]. apply Hlast.
           exists (Some (i :: page)). right. exists next.
           split; [reflexivity | now apply Qeq_bool_iff].
        -- destruct (Qlt_bool 91 next) eqn:E91.
           ++ intros [= <- <-]. apply Hlast.
              exists (Some (i :: page)), next.
              split; [reflexivity | now apply Qlt_bool_true].
           ++ apply IH.
  - intros [= <- <-]. apply Hlast. exists np. now left.
Qed.

(** The log only grows. *)
Lemma paginate_requested_extends (fuel : nat) (log : list Q) (start : Q)
      (acc : list A) :
  exists more, requested (loop fuel log start acc) = log ++ more.
Proof.
  revert log start acc. induction fuel as [|fuel IH]; intros log start acc.
  - exists []. cbn. now rewrite app_nil_r.
  - cbn [paginate]. branches; eauto;
      try (exists []; now rewrite app_nil_r).
    match goal with |- context [loop fuel ?l ?s ?a] =>
      destruct (IH l s a) as [more ->] end.
    exists (start :: more). now rewrite <- app_assoc.
Qed.

(** A turn that starts issues its request. *)
Lemma paginate_first_request (fuel : nat) (log : list Q) (start : Q)
      (acc : list A) :
  continue acc = true ->
  exists more, requested (loop (S fuel) log start acc) = log ++ start :: more.
Proof.
  intros Hc. cbn [paginate]. rewrite Hc. branches;
    try (exists []; reflexivity).
  match goal with |- context [loop fuel ?l ?s ?a] =>
    destruct (paginate_requested_extends fuel l s a) as [more ->] end.
  exists more. now rewrite <- app_assoc.
Qed.

(** With an endpoint that always points to a later page the loop has
    ended once the fuel exceeds the distance to the ceiling. *)
Lemma paginate_returns (fuel : nat) (log : list Q) (start : Q) (acc : list A)
      (z : Z) :
  advancing remote ->
  (start == inject_Z z)%Q ->
  (Z.to_nat (91 - z) < fuel)%nat ->
  exists e res, outcome (loop fuel log start acc) = Some (e, res).
Proof.
  intros Hadv. revert log start acc z.
  induction fuel as [|fuel IH]; intros log start acc z Hz Hfuel; [lia |].
  cbn [paginate]. branches; offsets; eauto.
  match goal with H : remote _ _ = Data _ (Next ?q) |- _ =>
    destruct (Hadv _ _ _ _ (ex_intro _ z Hz) H) as [[z' Hz'] Hlt] end.
  apply (IH _ _ _ z' Hz').
  pose proof (whole_lt _ _ _ _ Hz Hz' Hlt).
  match goal with H : (_ <= 91)%Q |- _ =>
    pose proof (whole_le_91 _ _ Hz' H) end.
  lia.
Qed.

(** What holds of the accumulator when the loop leaves by the target. *)
Lemma paginate_target (T : list A -> Prop) (fuel : nat) (log : list Q)
      (start : Q) (acc res : list A) :
  (forall acc, continue acc = false -> T acc) ->
  (forall acc, full acc = true -> fst (finish acc) = TargetReached ->
               T (snd (finish acc))) ->
  broken <> TargetReached ->
  outcome (loop fuel log start acc) = Some (TargetReached, res) ->
  T res.
Proof.
  intros Hc Hf Hb. revert log start acc.
  induction fuel as [|fuel IH]; intros log start acc; [discriminate |].
  cbn [paginate]. branches; try discriminate;
    try (intros [= E <-]; first [ now apply Hf | now apply Hc | congruence ]);
    try (intros [= <-]; now apply Hc).
  apply IH.
Qed.

(** An invariant of the page handling holds of the accumulator at the
    end. *)
Lemma paginate_invariant (I : list A -> Prop) (fuel : nat) (log : list Q)
      (start : Q) (acc : list A) (e : Exit) (res : list A) :
  (forall page acc, I acc -> I (absorb page acc)) ->
  (forall acc, I acc -> I (snd (finish acc))) ->
  I acc ->
  outcome (loop fuel log start acc) = Some (e, res) ->
  I res.
Proof.
  intros Ha Hc. revert log start acc.
  induction fuel as [|fuel IH]; intros log start acc Hacc; [discriminate |].
  cbn [paginate]. branches; try (intros [= <- <-]; auto).
  apply IH. auto.
Qed.

(** A failed request is the last one of the run, which has returned on
    it. *)
Lemma paginate_failure_last (fuel : nat) (log : list Q) (start : Q)
      (acc : list A) (k : nat) (s : Q) :
  (forall j t, log !! j = Some t -> remote j t <> Failure) ->
  requested (loop fuel log start acc) !! k = Some s ->
  remote k s = Failure ->
  S k = length (requested (loop fuel log start acc)) /\
  exists res, outcome (loop fuel log start acc) = Some (FetchError, res).
Proof.
  revert log start acc. induction fuel as [|fuel IH]; intros log start acc Hlog.
  - intros Hk Hf. now apply Hlog in Hk.
  - assert (Hlog' : forall j t, (log ++ [start]) !! j = Some t ->
              remote j t = Failure -> remote (length log) start = Failure).
    { intros j t Hj Hf. apply lookup_app_Some in Hj.
      destruct Hj as [Hj | [Hge Hj]]; [now apply Hlog in Hj |].
      apply list_lookup_singleton_Some in Hj. destruct Hj as [Hj <-].
      now replace (length log) with j by lia. }
    cbn [paginate]. branches;
      try (apply IH; intros j t Hj Hfj;
           specialize (Hlog' j t Hj Hfj); discriminate);
      intros Hk Hf;
      try (exfalso; now apply Hlog in Hk);
      try (specialize (Hlog' k s Hk Hf); discriminate).
    rewrite length_app. cbn [length]. split; [| eauto].
    apply lookup_app_Some in Hk. destruct Hk as [Hk | [Hge Hk]].
    + now apply Hlog in Hk.
    + apply list_lookup_singleton_Some in Hk. lia.
Qed.

End PaginateFacts.

(** A failure at request [k] leaves what the run returns when the pages
    end before request [k]. *)
Lemma paginate_stop_at {A : Type} (remote : Remote) (continue : list A -> bool)
      (absorb : list Item -> list A -> list A) (full : list A -> bool)
      (finish : list A -> Exit * list A) (broken : Exit)
      (k fuel : nat) (log : list Q) (start : Q) (acc : list A) :
  (forall s, remote k s = Failure) ->
  (length log <= k)%nat ->
  result (paginate remote continue absorb full finish broken fuel log start acc)
  = result (paginate (stop_at k remote) continue absorb full finish broken
                     fuel log start acc).
Proof.
  intros Hk. revert log start acc.
  induction fuel as [|fuel IH]; intros log start acc Hlen; [reflexivity |].
  cbn [paginate]. destruct (continue acc); [| reflexivity].
  unfold stop_at at 1. destruct (Nat.eqb_spec (length log) k) as [-> | Hne].
  - now rewrite Hk.
  - branches; try reflexivity.
    apply IH. rewrite length_app. cbn [length]. lia.
Qed.

(** ** The two loops as instances of the scheme *)

Lemma fetchAllResults_paginate (remote : Remote) (config : Config)
      (fuel : nat) (log : list Q) (start : Q) (acc : list Item) :
  fetchAllResults_loop remote config fuel log start acc
  = paginate remote
      (fun acc => negb (ge_js (length acc) (or_Infinity (config_maxResults config))))
      (fun page acc => acc ++ page)
      (fun acc => ge_js (length acc) (or_Infinity (config_maxResults config)))
      (fetchAllResults_finish config) CaughtError
      fuel log start acc.
Proof.
  revert log start acc. induction fuel as [|fuel IH]; intros log start acc;
    [reflexivity |].
  cbn [fetchAllResults_loop paginate].
  destruct (ge_js (length acc) _); cbn [negb]; [reflexivity |].
  destruct (remote (length log) start) as [| |[[|i page]|] np]; try reflexivity.
  destruct (ge_js _ _).
  { unfold fetchAllResults_finish. now destruct (set_length _ _). }
  destruct np as [| | next]; try reflexivity.
  destruct (Qeq_bool next 0); [reflexivity |].
  destruct (Qlt_bool 91 next); [reflexivity |]. apply IH.
Qed.

Lemma fetchNewResults_paginate (Date_parse : string -> JSDate) (remote : Remote)
      (config : Config) (seen : gset string)
      (fuel : nat) (log : list Q) (start : Q) (acc : list ResultRecord) :
  fetchNewResults_loop Date_parse remote config seen fuel log start acc
  = paginate remote
      (fun acc => lt_js (length acc) (config_maxResults config))
      (processItems Date_parse config seen)
      (fun acc => ge_js (length acc) (config_maxResults config))
      (fun acc => (TargetReached, acc)) Thrown
      fuel log start acc.
Proof. reflexivity. Qed.

(** ** The page loop of part_001 *)

Section ProcessItems.

Variable Date_parse : string -> JSDate.
Variable config : Config.
Variable seen : gset string.

Abbreviation process := (processItems Date_parse config seen).

(** One turn of the loop over the items of a page. *)
Lemma processItems_cons (item : Item) (rest : list Item)
      (acc : list ResultRecord) :
  process (item :: rest) acc
  = if unseen seen acc item && passes Date_parse config item
    then if ge_js (length (acc ++ [record_of item])) (config_maxResults config)
         then acc ++ [record_of item]
         else process rest (acc ++ [record_of item])
    else process rest acc.
Proof.
  cbn [processItems]. unfold unseen, passes, key, record_of. cbn [URL Title].
  destruct (bool_decide _); cbn [negb andb]; [reflexivity |].
  destruct (existsb _ acc); cbn [negb andb]; [reflexivity |].
  destruct (containsAvoidKeyword _ _); cbn [negb andb]; [reflexivity |].
  destruct (publishedBeforeMinDate _ _ _); reflexivity.
Qed.

Ltac turn item rest acc :=
  rewrite (processItems_cons item rest acc);
  destruct (unseen seen acc item && passes Date_parse config item) eqn:Hacc;
  [ destruct (ge_js (length (acc ++ [record_of item])) (config_maxResults config))
      eqn:Hfull
  | ].

(** What each acceptance preserves holds of the accumulator in the end. *)
Lemma processItems_invariant (I : list ResultRecord -> Prop)
      (items : list Item) (acc : list ResultRecord) :
  (forall acc item,
      In item items -> I acc ->
      unseen seen acc item = true -> passes Date_parse config item = true ->
      I (acc ++ [record_of item])) ->
  I acc -> I (process items acc).
Proof.
  revert acc. induction items as [|item rest IH]; intros acc Hstep Hacc0;
    [exact Hacc0 |].
  assert (Hrest : forall acc item,
             In item rest -> I acc ->
             unseen seen acc item = true -> passes Date_parse config item = true ->
             I (acc ++ [record_of item]))
    by (intros; apply Hstep; [now right | assumption ..]).
  turn item rest acc.
  - apply andb_true_iff in Hacc as [Hu Hp]. apply Hstep; [now left | assumption ..].
  - apply andb_true_iff in Hacc as [Hu Hp]. apply IH; [exact Hrest |].
    apply Hstep; [now left | assumption ..].
  - now apply IH.
Qed.

(** The accumulator only grows. *)
Lemma processItems_extends (items : list Item) (acc : list ResultRecord) :
  exists added, process items acc = acc ++ added.
Proof.
  apply (processItems_invariant (fun x => exists added, x = acc ++ added)).
  - intros acc' item _ [added ->] _ _. exists (added ++ [record_of item]).
    now rewrite <- app_assoc.
  - exists []. now rewrite app_nil_r.
Qed.

(** It takes at most one record per item. *)
Lemma processItems_length_items (items : list Item) (acc : list ResultRecord) :
  (length (process items acc) <= length acc + length items)%nat.
Proof.
  revert acc. induction items as [|item rest IH]; intros acc;
    [cbn; lia |].
  turn item rest acc; cbn [length].
  - rewrite length_app. cbn. lia.
  - specialize (IH (acc ++ [record_of item])). rewrite length_app in IH.
    cbn in IH. lia.
  - specialize (IH acc). lia.
Qed.

(** Below the target at the start, never above it. *)
Lemma processItems_length_le (m : nat) (items : list Item)
      (acc : list ResultRecord) :
  config_maxResults config = num m ->
  (length acc < m)%nat ->
  (length (process items acc) <= m)%nat.
Proof.
  intros Hm. revert acc. induction items as [|item rest IH]; intros acc Hlt;
    [cbn; lia |].
  turn item rest acc.
  - rewrite length_app. cbn. lia.
  - rewrite Hm in Hfull. cbn in Hfull. apply Nat.leb_gt in Hfull.
    now apply IH.
  - now apply IH.
Qed.

(** Once the target is reached the rest of the page is not looked at. *)
Lemma processItems_stop (m : nat) (l1 l2 : list Item)
      (acc : list ResultRecord) :
  config_maxResults config = num m ->
  (length acc < m)%nat ->
  length (process l1 acc) = m ->
  process (l1 ++ l2) acc = process l1 acc.
Proof.
  intros Hm. revert acc. induction l1 as [|item rest IH]; intros acc Hlt Hlen.
  - cbn in Hlen. lia.
  - rewrite <- app_comm_cons.
    rewrite (processItems_cons item (rest ++ l2) acc).
    revert Hlen. turn item rest acc; intros Hlen.
    + reflexivity.
    + rewrite Hm in Hfull. cbn in Hfull. apply Nat.leb_gt in Hfull.
      now apply IH.
    + now apply IH.
Qed.

(** Short of the target, a page after another is one long page. *)
Lemma processItems_app (l1 l2 : list Item) (acc : list ResultRecord) :
  ge_js (length (process l1 acc)) (config_maxResults config) = false ->
  process (l1 ++ l2) acc = process l2 (process l1 acc).
Proof.
  revert acc. induction l1 as [|item rest IH]; intros acc; [reflexivity |].
  rewrite <- app_comm_cons.
  rewrite (processItems_cons item (rest ++ l2) acc).
  turn item rest acc; intros Hge.
  - congruence.
  - now apply IH.
  - now apply IH.
Qed.

Lemma unseen_true (acc : list ResultRecord) (item : Item) :
  unseen seen acc item = true ->
  (key (record_of item) ∉ seen) /\
  Forall (fun r => key r <> key (record_of item)) acc.
Proof.
  unfold unseen. rewrite andb_true_iff, !negb_true_iff.
  intros [Hs Hd]. split.
  - now apply bool_decide_eq_false in Hs.
  - apply Forall_forall. intros r Hr Heq.
    apply not_true_iff_false in Hd. apply Hd. apply existsb_exists.
    exists r. split; [now apply list_elem_of_In | now apply String.eqb_eq].
Qed.

Lemma unseen_false (acc : list ResultRecord) (item : Item) :
  unseen seen acc item = false ->
  (key (record_of item) ∈ seen) \/
  (exists r, In r acc /\ key r = key (record_of item)).
Proof.
  unfold unseen. rewrite andb_false_iff, !negb_false_iff.
  intros [Hs | Hd].
  - left. now apply bool_decide_eq_true in Hs.
  - right. apply existsb_exists in Hd. destruct Hd as [r [Hr Heq]].
    exists r. split; [exact Hr | now apply String.eqb_eq].
Qed.

(** No accepted record has its normalized URL in the processed set. *)
Lemma processItems_not_seen (items : list Item) (acc : list ResultRecord) :
  Forall (fun r => key r ∉ seen) acc ->
  Forall (fun r => key r ∉ seen) (process items acc).
Proof.
  apply (processItems_invariant (Forall (fun r => key r ∉ seen))). intros acc' item _ Hacc' Hu _.
  apply unseen_true in Hu as [Hs _].
  apply Forall_app. split; [exact Hacc' | now constructor].
Qed.

(** No two accepted records share a normalized URL. *)
Lemma processItems_NoDup (items : list Item) (acc : list ResultRecord) :
  NoDup (map key acc) -> NoDup (map key (process items acc)).
Proof.
  apply (processItems_invariant (fun x => NoDup (map key x))). intros acc' item _ Hacc' Hu _.
  apply unseen_true in Hu as [_ Hd].
  rewrite map_app. cbn [map]. apply NoDup_app. repeat split.
  - exact Hacc'.
  - intros k Hk Hk'. apply list_elem_of_In, in_map_iff in Hk.
    destruct Hk as [r [<- Hr]].
    apply list_elem_of_singleton in Hk'.
    rewrite Forall_forall in Hd. apply (Hd r); [now apply list_elem_of_In | exact Hk'].
  - apply NoDup_singleton.
Qed.

(** Every accepted record comes from an item of the page that passes
    the filters and whose normalized URL is not in the processed set. *)
Lemma processItems_from_page (items : list Item) (acc : list ResultRecord) :
  exists added,
    process items acc = acc ++ added /\
    Forall (fun r => (key r ∉ seen) /\
              exists item,
                In item items /\ r = record_of item /\
                passes Date_parse config item = true) added.
Proof.
  apply (processItems_invariant
           (fun x => exists added, x = acc ++ added /\
              Forall (fun r => (key r ∉ seen) /\
                        exists item,
                          In item items /\ r = record_of item /\
                          passes Date_parse config item = true) added)).
  - intros acc' item Hin [added [-> Hadded]] Hu Hp.
    apply unseen_true in Hu as [Hs _].
    exists (added ++ [record_of item]). split; [now rewrite <- app_assoc |].
    apply Forall_app. split; [exact Hadded |]. constructor; [| constructor].
    split; [exact Hs | now exists item].
  - exists []. split; [now rewrite app_nil_r | constructor].
Qed.

(** Short of the target, no acceptable item of the page was left out. *)
Lemma processItems_complete (items : list Item) (acc : list ResultRecord)
      (item : Item) :
  ge_js (length (process items acc)) (config_maxResults config) = false ->
  In item items ->
  key (record_of item) ∉ seen ->
  passes Date_parse config item = true ->
  exists r, In r (process items acc) /\ key r = key (record_of item).
Proof.
  revert acc. induction items as [|it rest IH]; intros acc Hge Hin Hs Hp;
    [destruct Hin |].
  assert (Hkeep : forall acc' r, In r acc' -> In r (process rest acc')).
  { intros acc' r Hr. destruct (processItems_extends rest acc') as [added ->].
    apply in_or_app. now left. }
  revert Hge. turn it rest acc; intros Hge.
  - congruence.
  - destruct Hin as [-> | Hin]; [| now apply IH].
    exists (record_of item). split; [| reflexivity].
    apply Hkeep, in_or_app. right. now left.
  - destruct Hin as [-> | Hin]; [| now apply IH].
    rewrite Hp, andb_true_r in Hacc.
    apply unseen_false in Hacc as [Hin | [r [Hr Heq]]]; [contradiction |].
    exists r. split; [now apply Hkeep | exact Heq].
Qed.

(** With room for the whole page and no two keys alike, the page loop
    is a plain filter. *)
Lemma processItems_filter (m : nat) (items : list Item)
      (acc : list ResultRecord) :
  config_maxResults config = num m ->
  (length acc + length items <= m)%nat ->
  NoDup (map key acc ++ map (fun i => key (record_of i)) items) ->
  process items acc
  = acc ++ map record_of
        (List.filter
           (fun i => negb (bool_decide (key (record_of i) ∈ seen))
                     && passes Date_parse config i)
           items).
Proof.
  intros Hm. revert acc. induction items as [|item rest IH]; intros acc Hlen Hnd.
  - cbn. now rewrite app_nil_r.
  - cbn [length] in Hlen. cbn [map] in Hnd.
    assert (Hdup : existsb (fun result => String.eqb (key result) (key (record_of item)))
                           acc = false).
    { apply not_true_iff_false. intros H. apply existsb_exists in H.
      destruct H as [r [Hr Heq]]. apply String.eqb_eq in Heq.
      apply NoDup_app in Hnd as (_ & Hdisj & _).
      apply (Hdisj (key r)).
      - apply list_elem_of_In, in_map. exact Hr.
      - rewrite Heq. left. }
    assert (Hnd_skip : NoDup (map key acc ++ map (fun i => key (record_of i)) rest)).
    { apply NoDup_app in Hnd as (Ha & Hdisj & Hr). apply NoDup_app.
      repeat split; [exact Ha | | now apply NoDup_cons in Hr].
      intros k Hk Hk'. apply (Hdisj k Hk). now right. }
    assert (Hnd_take : NoDup (map key (acc ++ [record_of item])
                              ++ map (fun i => key (record_of i)) rest)).
    { rewrite map_app, <- app_assoc. exact Hnd. }
    turn item rest acc; cbn [List.filter]; unfold unseen in Hacc;
      rewrite Hdup in Hacc; cbn [negb] in Hacc; rewrite andb_true_r in Hacc;
      rewrite Hacc.
    + rewrite Hm in Hfull. cbn in Hfull. apply Nat.leb_le in Hfull.
      rewrite length_app in Hfull. cbn in Hfull.
      destruct rest; [| cbn in Hlen; lia]. reflexivity.
    + rewrite IH; [| rewrite length_app; cbn; lia | exact Hnd_take].
      cbn [map]. now rewrite <- app_assoc.
    + now apply IH; [lia |].
Qed.

End ProcessItems.

(** ** The filter of googleSearch.js *)

Lemma filter_step_passes (Date_parse : string -> JSDate) (config : Config)
      (acc : list ResultRecord) (item : Item) :
  filter_step Date_parse config acc item
  = if passes Date_parse config item then acc ++ [record_of item] else acc.
Proof.
  unfold filter_step, passes.
  destruct (containsAvoidKeyword _ _); cbn [negb andb]; [reflexivity |].
  destruct (publishedBeforeMinDate _ _ _); reflexivity.
Qed.

Lemma fold_filter_step (Date_parse : string -> JSDate) (config : Config)
      (rawItems : list Item) (acc : list ResultRecord) :
  fold_left (filter_step Date_parse config) rawItems acc
  = acc ++ map record_of (List.filter (passes Date_parse config) rawItems).
Proof.
  revert acc. induction rawItems as [|item rest IH]; intros acc.
  - cbn. now rewrite app_nil_r.
  - cbn [fold_left List.filter]. rewrite IH, filter_step_passes.
    destruct (passes Date_parse config item); [| reflexivity].
    cbn [map]. now rewrite <- app_assoc.
Qed.

(** [filteredResults] keeps the items that pass, in order. *)
Lemma filteredResults_filter (Date_parse : string -> JSDate) (config : Config)
      (rawItems : list Item) :
  filteredResults Date_parse config rawItems
  = map record_of (List.filter (passes Date_parse config) rawItems).
Proof. unfold filteredResults. now rewrite fold_filter_step. Qed.

(** [newResults] of googleSearch.js as one filter on the raw items. *)
Lemma newResults_filter (Date_parse : string -> JSDate) (config : Config)
      (rawItems : list Item) (seen : gset string) :
  GoogleSearch.newResults Date_parse config rawItems seen
  = map record_of
      (List.filter
         (fun i => negb (bool_decide (URL (record_of i) ∈ seen))
                   && passes Date_parse config i)
         rawItems).
Proof.
  unfold GoogleSearch.newResults. rewrite filteredResults_filter.
  induction rawItems as [|item rest IH]; [reflexivity |].
  cbn [List.filter]. destruct (passes Date_parse config item); cbn [map List.filter].
  - rewrite andb_true_r.
    destruct (negb (bool_decide (URL (record_of item) ∈ seen))); cbn [map];
      now rewrite IH.
  - now rewrite andb_false_r.
Qed.

(** ** Runs that return *)

Lemma result_outcome {A : Type} (r : Run A) (e : Exit) (res : list A) :
  outcome r = Some (e, res) -> e <> Thrown -> result r = Some res.
Proof. unfold result. intros -> He. now destruct e. Qed.

Lemma result_Some {A : Type} (r : Run A) (res : list A) :
  result r = Some res ->
  exists e, outcome r = Some (e, res) /\ e <> Thrown.
Proof.
  unfold result. destruct (outcome r) as [[e res']|]; [| discriminate].
  destruct e; intros [= <-]; eexists; (split; [reflexivity | discriminate]).
Qed.

(** [fetchAllResults] never throws: its [try] block holds every statement
    that can. *)
Lemma fetchAllResults_loop_not_Thrown (remote : Remote) (config : Config)
      (fuel : nat) (log : list Q) (start : Q) (acc raw : list Item) :
  outcome (fetchAllResults_loop remote config fuel log start acc)
  <> Some (Thrown, raw).
Proof.
  revert log start acc. induction fuel as [|fuel IH]; intros log start acc;
    [discriminate |].
  cbn [fetchAllResults_loop]. branches; try discriminate. apply IH.
Qed.

Lemma fetchAllResults_loop_result (remote : Remote) (config : Config)
      (fuel : nat) (log : list Q) (start : Q) (acc : list Item)
      (e : Exit) (raw : list Item) :
  outcome (fetchAllResults_loop remote config fuel log start acc) = Some (e, raw) ->
  result (fetchAllResults_loop remote config fuel log start acc) = Some raw.
Proof.
  intros H. apply (result_outcome _ e); [exact H |].
  intros ->. now apply fetchAllResults_loop_not_Thrown in H.
Qed.

(** ** The two loops on the same endpoint *)

Section SameEndpoint.

Variable Date_parse : string -> JSDate.
Variable remote : Remote.
Variable config : Config.
Variable seen : gset string.
Variable m : nat.
Hypothesis Hm : config_maxResults config = num m.

Abbreviation unbounded := (fetchAllResults_loop remote no_target).
Abbreviation F := (fun items => processItems Date_parse config seen items []).

(** Without a target the raw accumulator only grows. *)
Lemma unbounded_extends (fuel : nat) (log : list Q) (start : Q)
      (acc : list Item) (e : Exit) (raw : list Item) :
  outcome (unbounded fuel log start acc) = Some (e, raw) ->
  exists more, raw = acc ++ more.
Proof.
  rewrite fetchAllResults_paginate.
  apply (paginate_invariant _ _ _ _ _ _ (fun x => exists more, x = acc ++ more)).
  - intros page acc' [more ->]. exists (more ++ page). now rewrite app_assoc.
  - intros acc' H. exact H.
  - exists []. now rewrite app_nil_r.
Qed.

Lemma extends_full (acc raw : list Item) (n : nat) :
  (exists more, raw = acc ++ more) ->
  (length raw <= n)%nat -> (n <= length acc)%nat -> raw = acc.
Proof.
  intros [more ->] H1 H2. rewrite length_app in H1.
  destruct more; [now rewrite app_nil_r | cbn in H1; lia].
Qed.

(** With a target no smaller than what is served, [fetchAllResults]
    returns all of it. *)
Lemma fetchAll_not_truncated (fuel : nat) (log : list Q) (start : Q)
      (acc : list Item) (e : Exit) (raw : list Item) :
  outcome (unbounded fuel log start acc) = Some (e, raw) ->
  (length raw <= m)%nat ->
  result (fetchAllResults_loop remote config fuel log start acc) = Some raw.
Proof.
  destruct m as [|m'] eqn:Em.
  { intros H _.
    assert (E : fetchAllResults_loop remote config fuel log start acc
                = unbounded fuel log start acc).
    { rewrite !fetchAllResults_paginate. unfold fetchAllResults_finish.
      now rewrite Hm. }
    rewrite E. now apply fetchAllResults_loop_result in H. }
  revert log start acc. induction fuel as [|fuel IH]; intros log start acc H Hlen;
    [discriminate |].
  pose proof (unbounded_extends _ _ _ _ _ _ H) as Hext.
  revert H. cbn [fetchAllResults_loop]. rewrite Hm.
  cbn [or_Infinity no_target config_maxResults ge_js].
  destruct (Nat.leb_spec (Datatypes.S m') (length acc)) as [Hge | Hlt].
  { intros _. unfold result. cbn. f_equal. symmetry.
    now apply (extends_full acc raw (Datatypes.S m')). }
  destruct (remote (length log) start) as [| |[[|i page]|] np];
    try (intros [= <- <-]; reflexivity).
  destruct (Nat.leb_spec (Datatypes.S m') (length (acc ++ i :: page))) as [Hge | Hlt'].
  { intros H. unfold result. cbn [outcome returned set_length]. f_equal.
    assert (raw = acc ++ i :: page) as ->.
    { apply (extends_full _ _ (Datatypes.S m')); [| exact Hlen | exact Hge].
      destruct np as [| | next];
        [injection H as _ <-; exists []; now rewrite app_nil_r
        |injection H as _ <-; exists []; now rewrite app_nil_r |].
      destruct (Qeq_bool next 0); [injection H as _ <-; exists []; now rewrite app_nil_r |].
      destruct (Qlt_bool 91 next); [injection H as _ <-; exists []; now rewrite app_nil_r |].
      eapply unbounded_extends, H. }
    apply firstn_all2. lia. }
  destruct np as [| | next];
    [intros [= <- <-]; first [reflexivity | congruence]
    |intros [= <- <-]; first [reflexivity | congruence] |].
  destruct (Qeq_bool next 0); [intros [= <- <-]; reflexivity |].
  destruct (Qlt_bool 91 next); [intros [= <- <-]; reflexivity |].
  intros H. now apply IH.
Qed.

(** With a target no smaller than what is served, [fetchNewResults]
    sees the same pages and returns what the page loop makes of them. *)
Lemma fetchNew_follows (fuel : nat) (log : list Q) (start : Q)
      (acc : list Item) (e : Exit) (raw : list Item) :
  outcome (unbounded fuel log start acc) = Some (e, raw) ->
  e <> CaughtError ->
  (length raw <= m)%nat ->
  result (fetchNewResults_loop Date_parse remote config seen fuel log start (F acc))
  = Some (F raw).
Proof.
  intros H He. revert log start acc H.
  induction fuel as [|fuel IH]; intros log start acc H Hlen;
    [discriminate |].
  pose proof (unbounded_extends _ _ _ _ _ _ H) as Hext.
  pose proof (processItems_length_items Date_parse config seen acc []) as HF.
  cbn [length] in HF.
  revert H. cbn [fetchAllResults_loop fetchNewResults_loop]. rewrite Hm.
  cbn [or_Infinity no_target config_maxResults ge_js lt_js].
  destruct (Nat.ltb_spec (length (F acc)) m) as [Hlt | Hge].
  2: { intros _. unfold result. cbn. do 2 f_equal. symmetry.
       apply (extends_full acc raw m); [exact Hext | exact Hlen | lia]. }
  destruct (remote (length log) start) as [| |[[|i page]|] np];
    try (intros [= <- <-]; first [reflexivity | congruence]).
  assert (Happ : processItems Date_parse config seen (i :: page) (F acc)
                 = F (acc ++ i :: page)).
  { symmetry. apply processItems_app. rewrite Hm. cbn. now apply Nat.leb_gt. }
  rewrite Happ.
  pose proof (processItems_length_items Date_parse config seen (acc ++ i :: page) [])
    as HF'.
  cbn [length] in HF'.
  destruct (Nat.leb_spec m (length (F (acc ++ i :: page)))) as [Hge | Hlt'].
  { intros H. unfold result. cbn [outcome returned]. do 2 f_equal. symmetry.
    apply (extends_full _ _ m); [| exact Hlen | lia].
    destruct np as [| | next];
        [injection H as _ <-; exists []; now rewrite app_nil_r
        |injection H as _ <-; exists []; now rewrite app_nil_r |].
    destruct (Qeq_bool next 0); [injection H as _ <-; exists []; now rewrite app_nil_r |].
    destruct (Qlt_bool 91 next); [injection H as _ <-; exists []; now rewrite app_nil_r |].
    eapply unbounded_extends, H. }
  destruct np as [| | next];
    [intros [= <- <-]; first [reflexivity | congruence]
    |intros [= <- <-]; first [reflexivity | congruence] |].
  destruct (Qeq_bool next 0); [intros [= <- <-]; reflexivity |].
  destruct (Qlt_bool 91 next); [intros [= <- <-]; reflexivity |].
  intros H. now apply IH.
Qed.

End SameEndpoint.

(** ** The raw accumulator of googleSearch.js *)

(** With a positive target the raw accumulator never exceeds it, and has
    exactly the target when the loop leaves by the target. *)
Lemma fetchAllResults_loop_length (remote : Remote) (config : Config) (m : nat)
      (fuel : nat) (log : list Q) (start : Q) (acc : list Item)
      (e : Exit) (raw : list Item) :
  config_maxResults config = num (S m) ->
  (length acc <= S m)%nat ->
  outcome (fetchAllResults_loop remote config fuel log start acc) = Some (e, raw) ->
  (length raw <= S m)%nat /\ (e = TargetReached -> length raw = S m).
Proof.
  intros Hm. revert log start acc.
  induction fuel as [|fuel IH]; intros log start acc Hlen; [discriminate |].
  cbn [fetchAllResults_loop]. rewrite Hm. cbn [or_Infinity ge_js].
  destruct (Nat.leb_spec (S m) (length acc)) as [Hge | Hlt].
  { intros [= <- <-]. split; [exact Hlen | lia]. }
  destruct (remote (length log) start) as [| |[[|i page]|] np];
    try (intros [= <- <-]; split; [lia | discriminate]).
  destruct (Nat.leb_spec (S m) (length (acc ++ i :: page))) as [Hge | Hlt'].
  { intros [= <- <-]. cbn [set_length]. rewrite length_firstn. lia. }
  destruct np as [| | next]; [intros [= <- <-]; split; [lia | discriminate] | intros [= <- <-]; split; [lia | discriminate] |].
  destruct (Qeq_bool next 0); [intros [= <- <-]; split; [lia | discriminate] |].
  destruct (Qlt_bool 91 next); [intros [= <- <-]; split; [lia | discriminate] |].
  apply IH. lia.
Qed.

(** With a positive target [fetchAllResults] returns against any endpoint:
    every turn that does not leave adds an item. *)
Lemma fetchAllResults_loop_returns (remote : Remote) (config : Config) (m : nat)
      (fuel : nat) (log : list Q) (start : Q) (acc : list Item) :
  config_maxResults config = num (S m) ->
  (S m - length acc < fuel)%nat ->
  exists e res,
    outcome (fetchAllResults_loop remote config fuel log start acc) = Some (e, res).
Proof.
  intros Hm. revert log start acc.
  induction fuel as [|fuel IH]; intros log start acc Hfuel; [lia |].
  cbn [fetchAllResults_loop]. rewrite Hm. cbn [or_Infinity ge_js].
  destruct (Nat.leb_spec (S m) (length acc)) as [Hge | Hlt]; [cbn; eauto |].
  destruct (remote (length log) start) as [| |[[|i page]|] np];
    try solve [cbn; eauto].
  destruct (Nat.leb_spec (S m) (length (acc ++ i :: page))) as [Hge | Hlt'];
    [cbn; eauto |].
  destruct np as [| | next]; [cbn; eauto | cbn; eauto |].
  destruct (Qeq_bool next 0); [cbn; eauto |].
  destruct (Qlt_bool 91 next); [cbn; eauto |].
  apply IH. rewrite length_app. cbn [length]. lia.
Qed.

(** What [newResults] of googleSearch.js keeps has its URL, as it is,
    outside the processed set. *)
Lemma newResults_not_in (Date_parse : string -> JSDate) (config : Config)
      (rawItems : list Item) (seen : gset string) :
  Forall (fun r => URL r ∉ seen)
         (GoogleSearch.newResults Date_parse config rawItems seen).
Proof.
  unfold GoogleSearch.newResults. apply Forall_forall. intros r Hr.
  apply list_elem_of_In, filter_In in Hr. destruct Hr as [_ Hr].
  apply negb_true_iff in Hr. now apply bool_decide_eq_false in Hr.
Qed.

(** * The claims *)

(** ** Avoid keywords *)

Lemma containsAvoidKeyword_map (text : string) (kws : list string) :
  containsAvoidKeyword text kws
  = existsb (includes (toLowerCase text)) (map toLowerCase kws).
Proof.
  unfold containsAvoidKeyword. induction kws as [|k kws IH]; [reflexivity |].
  cbn [existsb map]. now rewrite IH.
Qed.

(** C8.  Whatever the lower-casing of the runtime: an item is rejected on
    avoid-keyword grounds exactly when the lower-cased title contains the
    lower-cased form of one of the avoid keywords as a substring; so the
    verdict depends on the title and on the keywords only through their
    lower-case forms; an item so rejected is taken by neither revision;
    and the title of the specification's example, whose lower-case form
    is [lowered_cleared_title], is rejected when the avoid keywords
    include [government clearance], which is its own lower-case form. *)
Theorem avoid_keyword_is_caseless_substring :
  (forall text kws,
      containsAvoidKeyword text kws = true <->
      exists k, In k kws /\ Substring (toLowerCase k) (toLowerCase text))
  /\ (forall text text' kws kws',
         toLowerCase text = toLowerCase text' ->
         map toLowerCase kws = map toLowerCase kws' ->
         containsAvoidKeyword text kws = containsAvoidKeyword text' kws')
  /\ (forall Date_parse config seen item acc,
         containsAvoidKeyword (or_empty (title item))
                              (config_avoidKeywords config) = true ->
         filter_step Date_parse config acc item = acc /\
         processItems Date_parse config seen [item] acc = acc)
  /\ (toLowerCase cleared_title = lowered_cleared_title ->
      toLowerCase "government clearance" = "government clearance" ->
      forall kws, In "government clearance" kws ->
                  containsAvoidKeyword cleared_title kws = true).
Proof.
  split; [exact containsAvoidKeyword_spec |]. split; [| split].
  - intros text text' kws kws' Ht Hk.
    now rewrite !containsAvoidKeyword_map, Ht, Hk.
  - intros Date_parse config seen item acc H. split.
    + unfold filter_step. now rewrite H.
    + rewrite processItems_cons. unfold passes. rewrite H.
      cbn [negb andb]. now rewrite andb_false_r.
  - intros Ht Hk kws Hin. apply containsAvoidKeyword_spec.
    exists "government clearance". split; [exact Hin |].
    rewrite Ht, Hk.
    exists "senior frontend developer (cleared — ", " required)".
    reflexivity.
Qed.

(** ** The CSV log *)

(** C9.  The double quote is the character 34 and the line feed the
    character 10.  Every field is written between double quotes with each
    inner double quote doubled (so that collapsing the pairs gives the
    field back); the title of the specification's example is serialized
    as the specification says; a record is appended as its two fields, a
    comma between them and a line feed after them, and records appended
    together are appended one after the other.  The header row, the
    characters [Title,URL] and a line feed, comes first exactly when the
    file did not exist: a missing file is written as a file that held the
    header alone, and to a file that exists only the rows are added. *)
Theorem csv_rows_quoted_header_once :
  (forall str,
      escapeCSV str
      = String "034"%char (replace_quotes str +:+ String "034"%char EmptyString))
  /\ replace_quotes EmptyString = EmptyString
  /\ (forall c r,
         replace_quotes (String c r)
         = if Ascii.eqb c "034"%char
           then String "034"%char (String "034"%char (replace_quotes r))
           else String c (replace_quotes r))
  /\ (forall str, collapse_quotes (replace_quotes str) = str)
  /\ escapeCSV ("Senior " +:+ String "034"%char
                  ("Frontend" +:+ String "034"%char " Dev"))
     = String "034"%char
         ("Senior " +:+ String "034"%char (String "034"%char
            ("Frontend" +:+ String "034"%char (String "034"%char
               (" Dev" +:+ String "034"%char EmptyString)))))
  /\ (forall old, appendToCSV [] (Some old) = Some old)
  /\ (forall r old,
         appendToCSV [r] (Some old)
         = Some (old +:+ escapeCSV (Title r) +:+ "," +:+ escapeCSV (URL r)
                 +:+ String "010"%char EmptyString))
  /\ (forall results more old,
         appendToCSV (results ++ more) (Some old)
         = match appendToCSV results (Some old) with
           | Some mid => appendToCSV more (Some mid)
           | None => None
           end)
  /\ (forall results,
         appendToCSV results None
         = appendToCSV results
             (Some ("Title,URL" +:+ String "010"%char EmptyString)))
  /\ (forall results old,
         appendToCSV results (Some old) = Some (old +:+ csv_rows results)).
Proof.
  assert (Hsome : forall results old,
             appendToCSV results (Some old) = Some (old +:+ csv_rows results)).
  { intros results old. unfold appendToCSV, appendFileSync.
    cbn [negb or_empty]. now rewrite fold_rows. }
  repeat apply conj.
  - reflexivity.
  - reflexivity.
  - reflexivity.
  - apply collapse_replace_quotes.
  - reflexivity.
  - intros old. rewrite Hsome. cbn. now rewrite append_empty_r.
  - intros r old. rewrite Hsome, csv_rows_cons. unfold csv_row, escapeCSV.
    cbn [csv_rows join map String.concat].
    now rewrite !append_assoc, append_empty_r.
  - intros results more old. rewrite !Hsome, csv_rows_app.
    now rewrite append_assoc.
  - intros results. rewrite Hsome. unfold appendToCSV, appendFileSync.
    cbn [negb or_empty]. now rewrite fold_rows.
  - exact Hsome.
Qed.

(** ** The query *)

(** C3, as amended.  [buildQuery] of googleSearch.js and part_001 builds
    the query of the specification: one clause per non-empty category, in
    the fixed order, single spaces between them, nothing for an empty or
    absent category; each clause of a list category is a group around a
    non-empty body.  [buildQuery] of part_002 builds, from non-empty
    keywords, domains and locations, the clauses of these three categories
    and of the minimum date only. *)
Theorem query_clauses_per_revision :
  (forall c, buildQuery c = spec_query c)
  /\ (forall c cat s,
         spec_clause c cat = Some s ->
         truthy s = true /\
         (cat <> MinimumDate ->
          exists prefix body,
            s = prefix +:+ "(" +:+ body +:+ ")" /\ truthy body = true))
  /\ (forall c k ks d ds l ls,
         keywords c = Some (k :: ks) ->
         domains c = Some (d :: ds) ->
         locations c = Some (l :: ls) ->
         Part002.buildQuery c
         = Some (join " " (omap (spec_clause c)
                                [Keywords; Domains; Locations; MinimumDate]))).
Proof.
  split; [exact buildQuery_spec_query |].
  split; [| intros; eapply Part002_buildQuery_spec; eassumption].
  intros c cat s H. split; [now apply spec_clause_truthy in H |].
  intros Hcat.
  destruct cat; cbn [spec_clause] in H; try contradiction;
    apply group_clause_Some in H; try reflexivity;
    destruct H as (t & ts & _ & -> & Hbody); eauto.
Qed.

(** ** The processed set *)

Lemma fetchNewResults_not_seen (Date_parse : string -> JSDate) (remote : Remote)
      (config : Config) (seen : gset string) (fuel : nat) (e : Exit)
      (res : list ResultRecord) :
  outcome (fetchNewResults Date_parse remote config seen fuel) = Some (e, res) ->
  Forall (fun r => key r ∉ seen) res.
Proof.
  unfold fetchNewResults. rewrite fetchNewResults_paginate.
  apply (paginate_invariant _ _ _ _ _ _ (Forall (fun r => key r ∉ seen))).
  - intros page acc. apply processItems_not_seen.
  - auto.
  - constructor.
Qed.

(** C1, as amended.  In the incremental revision (part_001) no record
    returned by [fetchNewResults], and so none appended by [main], has a
    URL whose normalized form is in the processed set the run started
    from.  In the fetch-all revision (googleSearch.js) membership is
    decided on the URL as it is: no record appended by [main] has its URL
    in the set loaded at the start of the run. *)
Theorem emitted_urls_not_in_processed_set :
  (forall Date_parse remote config seen fuel e res,
      outcome (fetchNewResults Date_parse remote config seen fuel) = Some (e, res) ->
      Forall (fun r => normalizeUrl (URL r) ∉ seen) res)
  /\ (forall Date_parse remote config fuel files emitted files',
         Part001.main Date_parse remote config fuel files = Some (emitted, files') ->
         Forall (fun r => normalizeUrl (URL r)
                          ∉ Part001.loadProcessedUrls (processed_urls_txt files))
                emitted)
  /\ (forall Date_parse remote config fuel files emitted files',
         GoogleSearch.main Date_parse remote config fuel files = Some (emitted, files') ->
         Forall (fun r => URL r
                          ∉ GoogleSearch.loadProcessedUrls (processed_urls_txt files))
                emitted).
Proof.
  split; [exact fetchNewResults_not_seen |]. split.
  - intros Date_parse remote config fuel files emitted files'.
    unfold Part001.main.
    destruct (outcome (fetchNewResults _ _ _ _ _)) as [[e res]|] eqn:H;
      [| discriminate].
    apply fetchNewResults_not_seen in H.
    destruct e, res; intros [= <- <-]; first [exact H | constructor].
  - intros Date_parse remote config fuel files emitted files'.
    unfold GoogleSearch.main.
    destruct (outcome (fetchAllResults _ _ _)) as [[e raw]|]; [| discriminate].
    pose proof (newResults_not_in Date_parse config raw
                  (GoogleSearch.loadProcessedUrls (processed_urls_txt files))) as H.
    destruct (GoogleSearch.newResults _ _ _ _); intros [= <- <-];
      [constructor | exact H].
Qed.

(** ** Acceptance within a page *)

(** With a positive target [fetchAllResults] returns the first items of
    what it returns without one. *)
Lemma fetchAllResults_loop_truncates (remote : Remote) (config : Config)
      (m fuel : nat) (log : list Q) (start : Q) (acc : list Item)
      (e : Exit) (raw : list Item) :
  config_maxResults config = num (S m) ->
  outcome (fetchAllResults_loop remote no_target fuel log start acc)
  = Some (e, raw) ->
  (length acc <= S m)%nat ->
  result (fetchAllResults_loop remote config fuel log start acc)
  = Some (firstn (S m) raw).
Proof.
  intros Hm. revert log start acc.
  induction fuel as [|fuel IH]; intros log start acc H Hlen; [discriminate |].
  pose proof (unbounded_extends remote _ _ _ _ _ _ H) as [more Hext].
  revert H. unfold result. cbn [fetchAllResults_loop]. rewrite Hm.
  cbn [or_Infinity no_target config_maxResults ge_js].
  destruct (Nat.leb_spec (S m) (length acc)) as [Hge | Hlt].
  { intros _. cbn [outcome returned]. f_equal. subst raw.
    rewrite firstn_app. replace (S m - length acc)%nat with 0%nat by lia.
    rewrite firstn_all2 by lia. cbn. now rewrite app_nil_r. }
  destruct (remote (length log) start) as [| |[[|i page]|] np];
    try (intros [= <- <-]; cbn [outcome returned]; f_equal;
         symmetry; apply firstn_all2; lia).
  destruct (Nat.leb_spec (S m) (length (acc ++ i :: page))) as [Hge | Hlt'].
  { intros H. cbn [outcome returned set_length]. f_equal.
    assert (Hext' : exists more', raw = (acc ++ i :: page) ++ more').
    { destruct np as [| | next];
        [injection H as _ <-; exists []; now rewrite app_nil_r
        |injection H as _ <-; exists []; now rewrite app_nil_r |].
      destruct (Qeq_bool next 0);
        [injection H as _ <-; exists []; now rewrite app_nil_r |].
      destruct (Qlt_bool 91 next);
        [injection H as _ <-; exists []; now rewrite app_nil_r |].
      eapply unbounded_extends, H. }
    destruct Hext' as [more' ->]. rewrite (firstn_app (S m) (acc ++ i :: page)).
    replace (S m - length (acc ++ i :: page))%nat with 0%nat by lia.
    cbn. now rewrite app_nil_r. }
  destruct np as [| | next];
    try (intros [= <- <-]; cbn [outcome returned]; f_equal;
         symmetry; apply firstn_all2; lia).
  destruct (Qeq_bool next 0);
    [intros [= <- <-]; cbn [outcome returned]; f_equal;
     symmetry; apply firstn_all2; lia |].
  destruct (Qlt_bool 91 next);
    [intros [= <- <-]; cbn [outcome returned]; f_equal;
     symmetry; apply firstn_all2; lia |].
  intros H. apply (IH _ _ _ H). lia.
Qed.

(** With a positive target the raw accumulator keeps what it holds: what
    is returned starts with it. *)
Lemma fetchAllResults_loop_extends (remote : Remote) (config : Config)
      (m fuel : nat) (log : list Q) (start : Q) (acc : list Item)
      (e : Exit) (raw : list Item) :
  config_maxResults config = num (S m) ->
  (length acc <= S m)%nat ->
  outcome (fetchAllResults_loop remote config fuel log start acc) = Some (e, raw) ->
  exists more, raw = acc ++ more.
Proof.
  intros Hm. revert log start acc.
  induction fuel as [|fuel IH]; intros log start acc Hlen; [discriminate |].
  cbn [fetchAllResults_loop]. rewrite Hm. cbn [or_Infinity ge_js].
  destruct (Nat.leb_spec (S m) (length acc)) as [Hge | Hlt];
    [intros [= <- <-]; exists []; now rewrite app_nil_r |].
  destruct (remote (length log) start) as [| |[[|i page]|] np];
    try (intros [= <- <-]; exists []; now rewrite app_nil_r).
  destruct (Nat.leb_spec (S m) (length (acc ++ i :: page))) as [Hge | Hlt'].
  { cbn [set_length]. intros [= <- <-].
    exists (firstn (S m - length acc) (i :: page)).
    rewrite firstn_app. f_equal. apply firstn_all2. lia. }
  assert (Hend : forall e', Some (e', acc ++ i :: page) = Some (e, raw) ->
                            exists more, raw = acc ++ more).
  { intros e' [= <- <-]. now exists (i :: page). }
  destruct np as [| | next]; try apply Hend.
  destruct (Qeq_bool next 0); [apply Hend |].
  destruct (Qlt_bool 91 next); [apply Hend |].
  intros H. apply IH in H; [| lia]. destruct H as [more ->].
  exists ((i :: page) ++ more). now rewrite app_assoc.
Qed.

(** C2, as amended.  In the incremental revision (part_001), from an
    accumulator below the target the page loop only appends records; each
    comes from an item of the page that passes the filters, has its
    normalized URL outside the processed set, and no two records of the
    accumulator share a normalized URL; the accumulator never exceeds the
    target, nothing of the page is looked at once the target is reached,
    and short of the target no acceptable item of the page is left out.
    In the fetch-all revision (googleSearch.js), with a positive target,
    every item of a page enters the raw accumulator, processed or not:
    a turn that starts below the target and is served a page returns the
    accumulator followed by the page, cut to the target, when that
    reaches the target, and otherwise goes on with the accumulator
    followed by the page, which what is returned starts with; what is
    returned never exceeds the target, has exactly the target when the
    loop leaves by it, and is the first items, up to the target, of all
    that the endpoint serves.  Of the raw items exactly those that pass
    the filters and whose URL, as it is, is outside the processed set are
    kept, each as often as it was served. *)
Theorem page_acceptance_per_revision :
  (forall Date_parse config seen m page acc,
      config_maxResults config = num m ->
      (length acc < m)%nat ->
      exists added,
        processItems Date_parse config seen page acc = acc ++ added /\
        Forall (fun r =>
                  (normalizeUrl (URL r) ∉ seen) /\
                  exists item,
                    In item page /\ r = record_of item /\
                    passes Date_parse config item = true) added /\
        (NoDup (map key acc) -> NoDup (map key (acc ++ added))) /\
        (length (acc ++ added) <= m)%nat /\
        (forall l1 l2,
            page = l1 ++ l2 ->
            length (processItems Date_parse config seen l1 acc) = m ->
            acc ++ added = processItems Date_parse config seen l1 acc) /\
        ((length (acc ++ added) < m)%nat ->
         forall item,
           In item page ->
           normalizeUrl (URL (record_of item)) ∉ seen ->
           passes Date_parse config item = true ->
           exists r, In r (acc ++ added) /\ key r = key (record_of item)))
  /\ (forall remote config m fuel,
         config_maxResults config = num (S m) ->
         (forall log start acc i page np,
             (length acc < S m)%nat ->
             remote (length log) start = Data (Some (i :: page)) np ->
             (S m <= length (acc ++ i :: page))%nat ->
             fetchAllResults_loop remote config (S fuel) log start acc
             = returned (log ++ [start]) TargetReached
                        (firstn (S m) (acc ++ i :: page))) /\
         (forall log start acc i page np e rawItems,
             (length acc < S m)%nat ->
             remote (length log) start = Data (Some (i :: page)) np ->
             (length (acc ++ i :: page) < S m)%nat ->
             outcome (fetchAllResults_loop remote config (S fuel) log start acc)
             = Some (e, rawItems) ->
             exists more, rawItems = (acc ++ i :: page) ++ more) /\
         (forall e rawItems,
             outcome (fetchAllResults remote config fuel) = Some (e, rawItems) ->
             (length rawItems <= S m)%nat /\
             (e = TargetReached -> length rawItems = S m)) /\
         (forall raw,
             all_served remote fuel = Some raw ->
             result (fetchAllResults remote config fuel)
             = Some (firstn (S m) raw)))
  /\ (forall Date_parse config rawItems seen,
         GoogleSearch.newResults Date_parse config rawItems seen
         = map record_of
             (List.filter
                (fun i => negb (bool_decide (URL (record_of i) ∈ seen))
                          && passes Date_parse config i)
                rawItems)).
Proof.
  split; [| split].
  - intros Date_parse config seen m page acc Hm Hlt.
    destruct (processItems_from_page Date_parse config seen page acc)
      as [added [Heq Hfrom]].
    exists added. rewrite <- Heq. repeat split.
    + exact Hfrom.
    + apply processItems_NoDup.
    + now apply (processItems_length_le Date_parse config seen m).
    + intros l1 l2 -> Hlen. now apply (processItems_stop Date_parse config seen m).
    + intros Hshort item Hin Hs Hp. apply processItems_complete; try assumption.
      rewrite Hm. cbn. now apply Nat.leb_gt.
  - intros remote config m fuel Hm. split; [| split; [| split]].
    + intros log start acc i page np Hlt Hr Hge.
      cbn [fetchAllResults_loop]. rewrite Hm, Hr. cbn [or_Infinity ge_js].
      apply Nat.leb_gt in Hlt. rewrite Hlt. apply Nat.leb_le in Hge.
      now rewrite Hge.
    + intros log start acc i page np e rawItems Hlt Hr Hlt'.
      cbn [fetchAllResults_loop]. rewrite Hm, Hr. cbn [or_Infinity ge_js].
      pose proof Hlt' as Hroom.
      apply Nat.leb_gt in Hlt. rewrite Hlt. apply Nat.leb_gt in Hlt'.
      rewrite Hlt'.
      assert (Hend : forall e', Some (e', acc ++ i :: page) = Some (e, rawItems) ->
                                exists more, rawItems = (acc ++ i :: page) ++ more).
      { intros e' [= <- <-]. exists []. now rewrite app_nil_r. }
      destruct np as [| | next]; try apply Hend.
      destruct (Qeq_bool next 0); [apply Hend |].
      destruct (Qlt_bool 91 next); [apply Hend |].
      apply (fetchAllResults_loop_extends remote config m); [exact Hm | lia].
    + intros e rawItems.
      apply fetchAllResults_loop_length; [exact Hm | cbn; lia].
    + intros raw Hserved. unfold all_served in Hserved.
      apply result_Some in Hserved as [e [Hrun _]].
      apply (fetchAllResults_loop_truncates remote config m fuel [] 1%Q [] e raw
               Hm Hrun).
      cbn. lia.
  - exact newResults_filter.
Qed.

(** ** Pagination *)

Lemma ge_js_lt_js (n : nat) (m : jsnum) :
  ge_js n m = true -> lt_js n m = false.
Proof.
  destruct m; cbn; intros H; try discriminate; try reflexivity.
  - apply Nat.leb_le in H. apply Nat.ltb_ge. exact H.
  - apply Nat.ltb_lt in H. apply Nat.leb_gt. exact H.
Qed.

(** [fetchNewResults] has no [catch] but the one around the request. *)
Lemma fetchNewResults_loop_not_Caught (Date_parse : string -> JSDate)
      (remote : Remote) (config : Config) (seen : gset string)
      (fuel : nat) (log : list Q) (start : Q) (acc res : list ResultRecord) :
  outcome (fetchNewResults_loop Date_parse remote config seen fuel log start acc)
  <> Some (CaughtError, res).
Proof.
  revert log start acc. induction fuel as [|fuel IH]; intros log start acc;
    [discriminate |].
  cbn [fetchNewResults_loop]. branches; try discriminate. apply IH.
Qed.

(** Without a target [fetchAllResults] goes round for ever against an
    endpoint that keeps serving a page and points back to the first
    offset. *)
Lemma fetchAllResults_loop_looping (config : Config) (i : Item)
      (page : list Item) (fuel : nat) (log : list Q) (start : Q)
      (acc : list Item) :
  or_Infinity (config_maxResults config) = Infinity ->
  outcome (fetchAllResults_loop (looping (i :: page)) config fuel log start acc)
  = None.
Proof.
  intros Hinf. revert log start acc.
  induction fuel as [|fuel IH]; intros log start acc; [reflexivity |].
  cbn [fetchAllResults_loop]. rewrite Hinf. apply IH.
Qed.

(** [fetchNewResults] goes round for ever against such an endpoint when
    nothing of the page is accepted. *)
Lemma fetchNewResults_loop_looping (Date_parse : string -> JSDate)
      (config : Config) (seen : gset string) (i : Item) (page : list Item)
      (fuel : nat) (log : list Q) (start : Q) :
  lt_js 0 (config_maxResults config) = true ->
  processItems Date_parse config seen (i :: page) [] = [] ->
  outcome (fetchNewResults_loop Date_parse (looping (i :: page)) config seen
                                fuel log start [])
  = None.
Proof.
  intros Hlt Hnone.
  assert (Hge : ge_js 0 (config_maxResults config) = false).
  { destruct (ge_js 0 (config_maxResults config)) eqn:E; [| reflexivity].
    apply ge_js_lt_js in E. congruence. }
  revert log start.
  induction fuel as [|fuel IH]; intros log start; [reflexivity |].
  cbn [fetchNewResults_loop length]. rewrite Hlt.
  unfold looping at 1. rewrite Hnone. cbn [length]. rewrite Hge. apply IH.
Qed.

(** C4, as amended.  In both loops no page request starts beyond offset
    91.  A loop that has ended has left by the target (the accepted count
    is not below it, resp. the raw count has reached it), or on the answer
    to its last request: a failure, a document without items, a document
    without a next-page offset, a next-page offset beyond 91, or a
    document that is null or whose next-page array is empty, on which
    [fetchAllResults] returns what it has accumulated and
    [fetchNewResults] throws; [fetchAllResults] also leaves, by its
    [catch], when it has reached a target that is no array length.  The
    loops end within 91 turns whenever the endpoint answers a request at
    an integer offset with an integer next-page offset greater than it;
    [fetchAllResults] with a positive integer target ends against any
    endpoint, within one turn more than the target.  Against an endpoint
    that keeps serving a page and points back to the first offset,
    [fetchAllResults] without a target never returns, and neither does
    [fetchNewResults] with a target when it accepts nothing of the
    page. *)
Theorem pagination_exits_and_ceiling :
  (forall Date_parse remote config seen fuel,
      Forall (fun s => (s <= 91)%Q)
             (requested (fetchNewResults Date_parse remote config seen fuel)))
  /\ (forall remote config fuel,
         Forall (fun s => (s <= 91)%Q)
                (requested (fetchAllResults remote config fuel)))
  /\ (forall Date_parse remote config seen fuel e res,
         outcome (fetchNewResults Date_parse remote config seen fuel) = Some (e, res) ->
         e <> CaughtError /\
         (e = TargetReached \/
          exists log0 start,
            requested (fetchNewResults Date_parse remote config seen fuel)
            = log0 ++ [start] /\
            exit_response e (remote (length log0) start)) /\
         (e = TargetReached ->
          lt_js (length res) (config_maxResults config) = false))
  /\ (forall remote config fuel e res,
         outcome (fetchAllResults remote config fuel) = Some (e, res) ->
         e <> Thrown /\
         exit_justified remote (or_Infinity (config_maxResults config)) e
                        (requested (fetchAllResults remote config fuel)) /\
         (e = TargetReached ->
          ge_js (length res) (or_Infinity (config_maxResults config)) = true))
  /\ (forall Date_parse remote config seen fuel,
         advancing remote -> (91 <= fuel)%nat ->
         exists e res,
           outcome (fetchNewResults Date_parse remote config seen fuel) = Some (e, res))
  /\ (forall remote config fuel,
         advancing remote -> (91 <= fuel)%nat ->
         exists e res,
           outcome (fetchAllResults remote config fuel) = Some (e, res))
  /\ (forall remote config m fuel,
         config_maxResults config = num (S m) -> (S m < fuel)%nat ->
         exists e res,
           outcome (fetchAllResults remote config fuel) = Some (e, res))
  /\ (forall config i page fuel,
         or_Infinity (config_maxResults config) = Infinity ->
         outcome (fetchAllResults (looping (i :: page)) config fuel) = None)
  /\ (forall Date_parse config seen i page fuel,
         lt_js 0 (config_maxResults config) = true ->
         processItems Date_parse config seen (i :: page) [] = [] ->
         outcome (fetchNewResults Date_parse (looping (i :: page)) config seen fuel)
         = None).
Proof.
  repeat apply conj.
  - intros. unfold fetchNewResults. rewrite fetchNewResults_paginate.
    apply paginate_requested_bound; [constructor | discriminate].
  - intros. unfold fetchAllResults. rewrite fetchAllResults_paginate.
    apply paginate_requested_bound; [constructor | discriminate].
  - intros Date_parse remote config seen fuel e res H. split; [| split].
    + intros ->. now apply fetchNewResults_loop_not_Caught in H.
    + assert (He : e <> CaughtError)
        by (intros ->; now apply fetchNewResults_loop_not_Caught in H).
      revert H. unfold fetchNewResults. rewrite fetchNewResults_paginate.
      intros H.
      apply (paginate_exit_justified _ _ _ _ _ _ (config_maxResults config)) in H;
        [| now left | now right].
      destruct H as [H | [[H _] | H]]; [now left | congruence | now right].
    + revert H. unfold fetchNewResults. rewrite fetchNewResults_paginate.
      intros H ->. revert H.
      apply (paginate_target _ _ _ _ _ _
               (fun res => lt_js (length res) (config_maxResults config) = false)).
      * auto.
      * intros acc Hfull _. now apply ge_js_lt_js.
      * discriminate.
  - intros remote config fuel e res H. split; [| split].
    + intros ->. now apply fetchAllResults_loop_not_Thrown in H.
    + revert H. unfold fetchAllResults. rewrite fetchAllResults_paginate.
      apply paginate_exit_justified; [| now left].
      intros acc. unfold fetchAllResults_finish.
      destruct (or_Infinity (config_maxResults config)); cbn; auto.
    + revert H. unfold fetchAllResults. rewrite fetchAllResults_paginate.
      intros H ->. revert H.
      apply (paginate_target _ _ _ _ _ _
               (fun res => ge_js (length res)
                             (or_Infinity (config_maxResults config)) = true)).
      * intros acc. now rewrite negb_false_iff.
      * intros acc. unfold fetchAllResults_finish.
        destruct (or_Infinity (config_maxResults config)); cbn;
          try discriminate.
        intros H _. apply Nat.leb_le in H. apply Nat.leb_le.
        rewrite length_firstn. lia.
      * discriminate.
  - intros Date_parse remote config seen fuel Hadv Hfuel.
    unfold fetchNewResults. rewrite fetchNewResults_paginate.
    apply (paginate_returns _ _ _ _ _ _ _ _ _ _ 1%Z); [exact Hadv | reflexivity |].
    change (Z.to_nat (91 - 1)) with 90%nat. lia.
  - intros remote config fuel Hadv Hfuel.
    unfold fetchAllResults. rewrite fetchAllResults_paginate.
    apply (paginate_returns _ _ _ _ _ _ _ _ _ _ 1%Z); [exact Hadv | reflexivity |].
    change (Z.to_nat (91 - 1)) with 90%nat. lia.
  - intros remote config m fuel Hm Hfuel.
    apply (fetchAllResults_loop_returns remote config m); [exact Hm | cbn; lia].
  - intros config i page fuel Hinf. now apply fetchAllResults_loop_looping.
  - intros Date_parse config seen i page fuel Hlt Hnone.
    now apply fetchNewResults_loop_looping.
Qed.

Lemma paged_advancing (pages : list (list Item)) : advancing (paged pages).
Proof.
  intros n start its next [z Hz]. unfold paged.
  destruct (pages !! n); intros [= _ <-]. split.
  - exists (z + 10)%Z. rewrite inject_Z_plus, Hz. reflexivity.
  - lra.
Qed.

(** ** Failures *)

(** C5.  In both loops a page request that fails makes the function
    return at once the accumulator as it stands, with that request the
    last one issued (no retry); a failed request is always the last of
    the run; and what is returned is what the run returns when the pages
    end before the failed request: nothing of the failed page is taken. *)
Theorem failure_returns_accumulator :
  (forall Date_parse remote config seen fuel log start acc,
      lt_js (length acc) (config_maxResults config) = true ->
      remote (length log) start = Failure ->
      fetchNewResults_loop Date_parse remote config seen (S fuel) log start acc
      = returned (log ++ [start]) FetchError acc)
  /\ (forall remote config fuel log start acc,
         ge_js (length acc) (or_Infinity (config_maxResults config)) = false ->
         remote (length log) start = Failure ->
         fetchAllResults_loop remote config (S fuel) log start acc
         = returned (log ++ [start]) FetchError acc)
  /\ (forall Date_parse remote config seen fuel k s,
         requested (fetchNewResults Date_parse remote config seen fuel) !! k = Some s ->
         remote k s = Failure ->
         S k = length (requested (fetchNewResults Date_parse remote config seen fuel)) /\
         exists res,
           outcome (fetchNewResults Date_parse remote config seen fuel)
           = Some (FetchError, res))
  /\ (forall remote config fuel k s,
         requested (fetchAllResults remote config fuel) !! k = Some s ->
         remote k s = Failure ->
         S k = length (requested (fetchAllResults remote config fuel)) /\
         exists res,
           outcome (fetchAllResults remote config fuel) = Some (FetchError, res))
  /\ (forall Date_parse remote config seen fuel k,
         (forall s, remote k s = Failure) ->
         result (fetchNewResults Date_parse remote config seen fuel)
         = result (fetchNewResults Date_parse (stop_at k remote) config seen fuel))
  /\ (forall remote config fuel k,
         (forall s, remote k s = Failure) ->
         result (fetchAllResults remote config fuel)
         = result (fetchAllResults (stop_at k remote) config fuel)).
Proof.
  repeat apply conj.
  - intros Date_parse remote config seen fuel log start acc Hlt Hf.
    cbn [fetchNewResults_loop]. now rewrite Hlt, Hf.
  - intros remote config fuel log start acc Hge Hf.
    cbn [fetchAllResults_loop]. now rewrite Hge, Hf.
  - intros Date_parse remote config seen fuel k s.
    unfold fetchNewResults. rewrite fetchNewResults_paginate.
    apply paginate_failure_last. intros j t Hj. discriminate Hj.
  - intros remote config fuel k s.
    unfold fetchAllResults. rewrite fetchAllResults_paginate.
    apply paginate_failure_last. intros j t Hj. discriminate Hj.
  - intros Date_parse remote config seen fuel k Hk.
    unfold fetchNewResults. rewrite !fetchNewResults_paginate.
    apply paginate_stop_at; [exact Hk | cbn; lia].
  - intros remote config fuel k Hk.
    unfold fetchAllResults. rewrite !fetchAllResults_paginate.
    apply paginate_stop_at; [exact Hk | cbn; lia].
Qed.

(** ** An absent target *)

(** Without a target [fetchAllResults] is the scheme with the target tests
    taken out. *)
Lemma fetchAllResults_unbounded (remote : Remote) (config : Config)
      (fuel : nat) (log : list Q) (start : Q) (acc : list Item) :
  or_Infinity (config_maxResults config) = Infinity ->
  fetchAllResults_loop remote config fuel log start acc
  = paginate remote (fun _ => true) (fun page acc => acc ++ page)
             (fun _ => false) (fun acc => (TargetReached, acc)) CaughtError
             fuel log start acc.
Proof.
  intros Hinf. revert log start acc.
  induction fuel as [|fuel IH]; intros log start acc; [reflexivity |].
  cbn [fetchAllResults_loop paginate]. rewrite Hinf. cbn [ge_js].
  destruct (remote (length log) start) as [| |[[|i page]|] np]; try reflexivity.
  destruct np as [| | next]; try reflexivity.
  destruct (Qeq_bool next 0); [reflexivity |].
  destruct (Qlt_bool 91 next); [reflexivity |]. apply IH.
Qed.

(** C10.  With [maxResults] absent or zero [fetchNewResults] returns the
    empty array without a single request.  With [maxResults] absent
    [fetchAllResults] runs as with an infinite target: it issues its first
    request; at every turn whose answer is a page with a next-page offset
    that is not zero and not beyond 91 it takes the whole page in and goes
    on to request that offset, however much it has accumulated; and when
    it has returned it has left on the answer to its last request, never
    by the target. *)
Theorem absent_target_per_revision :
  (forall Date_parse remote config seen fuel,
      config_maxResults config = undefined \/ config_maxResults config = num 0 ->
      fetchNewResults Date_parse remote config seen (S fuel)
      = returned [] TargetReached [])
  /\ (forall remote config fuel,
         config_maxResults config = undefined ->
         fetchAllResults remote config fuel
         = fetchAllResults remote (with_maxResults Infinity config) fuel /\
         (exists more,
             requested (fetchAllResults remote config (S fuel)) = 1%Q :: more) /\
         (forall log start acc i page next,
             remote (length log) start = Data (Some (i :: page)) (Next next) ->
             ~ (next == 0)%Q -> (next <= 91)%Q ->
             fetchAllResults_loop remote config (S fuel) log start acc
             = fetchAllResults_loop remote config fuel (log ++ [start]) next
                                    (acc ++ i :: page)) /\
         (forall e res,
             outcome (fetchAllResults remote config fuel) = Some (e, res) ->
             e <> TargetReached /\
             exists log0 start,
               requested (fetchAllResults remote config fuel) = log0 ++ [start] /\
               exit_response e (remote (length log0) start))).
Proof.
  split.
  - intros Date_parse remote config seen fuel [H | H];
      unfold fetchNewResults; cbn [fetchNewResults_loop]; now rewrite H.
  - intros remote config fuel H.
    assert (Hinf : or_Infinity (config_maxResults config) = Infinity)
      by now rewrite H.
    split; [| split; [| split]].
    + unfold fetchAllResults.
      rewrite !fetchAllResults_unbounded; [reflexivity | reflexivity | exact Hinf].
    + unfold fetchAllResults. rewrite fetchAllResults_unbounded by exact Hinf.
      now apply (paginate_first_request remote _ _ _ _ _ fuel [] 1%Q []).
    + intros log start acc i page next Hr Hz Hle.
      cbn [fetchAllResults_loop]. rewrite Hinf, Hr. cbn [ge_js].
      destruct (Qeq_bool next 0) eqn:E0;
        [now apply Qeq_bool_iff in E0 |].
      destruct (Qlt_bool 91 next) eqn:E91; [| reflexivity].
      apply Qlt_bool_true in E91. exfalso. exact (Qlt_not_le _ _ E91 Hle).
    + intros e res. unfold fetchAllResults.
      rewrite fetchAllResults_unbounded by exact Hinf. intros Hrun.
      assert (He : e <> TargetReached).
      { intros ->.
        apply (paginate_target _ _ _ _ _ _ (fun _ => False)) in Hrun;
          [exact Hrun | discriminate | discriminate | discriminate]. }
      split; [exact He |].
      apply (paginate_exit_justified _ _ _ _ _ _ (num 0)) in Hrun;
        [| now left | now left].
      destruct Hrun as [Hrun | [[_ Hrun] | Hrun]];
        [congruence | discriminate | exact Hrun].
Qed.

(** ** The two orders of filtering *)

Lemma passes_unfiltered (Date_parse : string -> JSDate) (config : Config)
      (item : Item) :
  passes Date_parse (unfiltered config) item = true.
Proof. reflexivity. Qed.

(** In the page loop of part_001 the order of the tests plays no part:
    filtering the page first and then dropping the processed and the
    repeated URLs gives the same accumulator. *)
Lemma processItems_filter_first (Date_parse : string -> JSDate)
      (config : Config) (seen : gset string) (items : list Item)
      (acc : list ResultRecord) :
  processItems Date_parse config seen items acc
  = processItems Date_parse (unfiltered config) seen
                 (List.filter (passes Date_parse config) items) acc.
Proof.
  revert acc. induction items as [|item rest IH]; intros acc; [reflexivity |].
  cbn [List.filter]. rewrite processItems_cons.
  destruct (passes Date_parse config item) eqn:Hp.
  - rewrite processItems_cons, passes_unfiltered.
    cbn [unfiltered config_maxResults].
    destruct (unseen seen acc item); cbn [andb]; [| apply IH].
    destruct (ge_js _ _); [reflexivity | apply IH].
  - rewrite andb_false_r. apply IH.
Qed.

(** With room for the whole page the target plays no part. *)
Lemma processItems_room (Date_parse : string -> JSDate) (config : Config)
      (seen : gset string) (m : nat) (items : list Item)
      (acc : list ResultRecord) :
  config_maxResults config = num m ->
  (length acc + length items <= m)%nat ->
  processItems Date_parse config seen items acc
  = processItems Date_parse (with_maxResults undefined config) seen items acc.
Proof.
  intros Hm. revert acc.
  induction items as [|item rest IH]; intros acc Hlen; [reflexivity |].
  rewrite !processItems_cons.
  change (passes Date_parse (with_maxResults undefined config) item)
    with (passes Date_parse config item).
  cbn [with_maxResults config_maxResults]. rewrite Hm. cbn [length] in Hlen.
  destruct (unseen seen acc item && passes Date_parse config item);
    [| apply IH; lia].
  cbn [ge_js].
  destruct (Nat.leb_spec m (length (acc ++ [record_of item]))) as [Hge | Hlt].
  - rewrite length_app in Hge. cbn [length] in Hge.
    destruct rest; [reflexivity | cbn [length] in Hlen; lia].
  - apply IH. rewrite length_app. cbn [length]. lia.
Qed.

(** C6, as amended.  On the same endpoint, serving well-formed documents,
    and the same processed set, with a target no smaller than the number
    of items the endpoint serves, the fetch-all revision (filter, then
    drop processed URLs) and the incremental revision (drop processed and
    repeated URLs, then filter) accept the same set of records, provided
    that, among the items served that pass the filters, a URL is in the
    processed set exactly when its normalized form is, and two items that
    are not processed and have the same normalized URL give the same
    record.  The order of the tests is not what tells the revisions
    apart: the page loop of the incremental revision accepts the same
    records when the filters are applied first. *)
Theorem revisions_agree_on_distinct_normalized_urls
        (Date_parse : string -> JSDate) (remote : Remote) (config : Config)
        (seen : gset string) (m fuel : nat) (e : Exit) (raw : list Item) :
  config_maxResults config = num m ->
  outcome (fetchAllResults remote no_target fuel) = Some (e, raw) ->
  e <> CaughtError ->
  (length raw <= m)%nat ->
  (forall i, In i raw -> passes Date_parse config i = true ->
             (URL (record_of i) ∈ seen <-> key (record_of i) ∈ seen)) ->
  (forall i j, In i raw -> In j raw ->
               passes Date_parse config i = true ->
               passes Date_parse config j = true ->
               key (record_of i) ∉ seen ->
               key (record_of i) = key (record_of j) ->
               record_of i = record_of j) ->
  result (fetchAllResults remote config fuel) = Some raw /\
  (exists accepted,
      result (fetchNewResults Date_parse remote config seen fuel) = Some accepted /\
      forall r, In r accepted <->
                In r (GoogleSearch.newResults Date_parse config raw seen)) /\
  (forall items acc,
      processItems Date_parse config seen items acc
      = processItems Date_parse (unfiltered config) seen
                     (List.filter (passes Date_parse config) items) acc).
Proof.
  intros Hm Hrun He Hlen Hin Hsame.
  split; [| split; [| apply processItems_filter_first]].
  - now apply (fetchAll_not_truncated remote config m Hm fuel [] 1%Q [] e raw).
  - exists (processItems Date_parse config seen raw []).
    split.
    { exact (fetchNew_follows Date_parse remote config seen m Hm fuel [] 1%Q []
               e raw Hrun He Hlen). }
    intros r. rewrite newResults_filter, in_map_iff.
    destruct (processItems_from_page Date_parse config seen raw [])
      as [added [Heq Hfrom]].
    cbn [app] in Heq. rewrite <- Heq in Hfrom.
    split.
    + intros Hr. apply list_elem_of_In in Hr.
      destruct (proj1 (Forall_forall _ _) Hfrom r Hr)
        as [Hns (item & Hitem & -> & Hp)].
      exists item. split; [reflexivity |]. apply filter_In.
      split; [exact Hitem |]. rewrite Hp, andb_true_r.
      apply negb_true_iff, bool_decide_eq_false.
      intros Hu. apply Hns. now apply (Hin item Hitem Hp).
    + intros (i & <- & Hi). apply filter_In in Hi. destruct Hi as [Hi Ht].
      apply andb_true_iff in Ht. destruct Ht as [Hu Hp].
      apply negb_true_iff, bool_decide_eq_false in Hu.
      assert (Hk : key (record_of i) ∉ seen)
        by (intros Hk; apply Hu; now apply (Hin i Hi Hp)).
      destruct (processItems_complete Date_parse
                  (with_maxResults undefined config) seen raw [] i)
        as (r' & Hr' & Hkey); [reflexivity | exact Hi | exact Hk | exact Hp |].
      rewrite <- (processItems_room Date_parse config seen m raw [] Hm Hlen)
        in Hr'.
      pose proof Hr' as Hr''. apply list_elem_of_In in Hr''.
      destruct (proj1 (Forall_forall _ _) Hfrom r' Hr'')
        as [_ (j & Hj & -> & Hpj)].
      rewrite (Hsame i j Hi Hj Hp Hpj Hk (eq_sym Hkey)). exact Hr'.
Qed.

(** ** The date filter *)

Lemma publishedBeforeMinDate_without (Date_parse : string -> JSDate)
      (config : Config) (item : Item) :
  publishedBeforeMinDate Date_parse (without_minDate config) item = false.
Proof. reflexivity. Qed.

(** C7.  With a minimum date configured, an item whose metadata gives a
    published date earlier than the minimum date is rejected by both
    revisions; an item from whose metadata no published date can be
    extracted is never rejected on date grounds, whatever the minimum
    date: both revisions treat it as they do without a minimum date. *)
Theorem date_filter_is_advisory :
  (forall Date_parse config d min item published,
      config_minDate config = Some d -> truthy d = true ->
      Date_parse d = Some min ->
      getPublishedDate Date_parse item = Some (Some published) ->
      (published < min)%Z ->
      publishedBeforeMinDate Date_parse config item = true /\
      (forall acc, filter_step Date_parse config acc item = acc) /\
      (forall seen acc, processItems Date_parse config seen [item] acc = acc))
  /\ (forall Date_parse config item,
         getPublishedDate Date_parse item = None ->
         publishedBeforeMinDate Date_parse config item = false /\
         (forall acc,
             filter_step Date_parse config acc item
             = filter_step Date_parse (without_minDate config) acc item) /\
         (forall seen acc,
             processItems Date_parse config seen [item] acc
             = processItems Date_parse (without_minDate config) seen [item] acc)).
Proof.
  split.
  - intros Date_parse config d min item published Hd Ht Hmin Hpub Hlt.
    assert (H : publishedBeforeMinDate Date_parse config item = true).
    { unfold publishedBeforeMinDate, minDateObj. rewrite Hd, Ht, Hpub, Hmin.
      cbn. now apply Z.ltb_lt. }
    split; [exact H |]. split.
    + intros acc. rewrite filter_step_passes. unfold passes. rewrite H.
      now rewrite andb_false_r.
    + intros seen acc. rewrite processItems_cons. unfold passes. rewrite H.
      now rewrite !andb_false_r.
  - intros Date_parse config item Hpub.
    assert (H : publishedBeforeMinDate Date_parse config item = false).
    { unfold publishedBeforeMinDate. rewrite Hpub. now destruct (minDateObj _ _). }
    split; [exact H |]. split.
    + intros acc. rewrite !filter_step_passes. unfold passes.
      now rewrite H, publishedBeforeMinDate_without.
    + intros seen acc. rewrite !processItems_cons. unfold passes.
      now rewrite H, publishedBeforeMinDate_without.
Qed.

(** * Further properties of the code *)

(** ** The string built-ins *)

(** The one fact of [trim] the statements on the URL log rest on: the
    empty string has nothing to strip. *)
Hypothesis trim_empty : trim EmptyString = EmptyString.

Lemma nonblank_truthy (url : string) : nonblank url = truthy (trim url).
Proof. unfold nonblank. now destruct (trim url). Qed.

(** ** The URL log *)

Lemma split_lines_cons (data : string) :
  exists h t, split_lines data = h :: t.
Proof.
  induction data as [|c r [h [t IH]]]; [now exists EmptyString, [] |].
  cbn [split_lines]. destruct (Ascii.eqb c newline); [eauto |].
  rewrite IH. eauto.
Qed.

(** Splitting distributes over a line feed. *)
Lemma split_lines_app (a b : string) :
  split_lines (a +:+ nl +:+ b) = split_lines a ++ split_lines b.
Proof.
  induction a as [|c a IH]; [reflexivity |].
  change (String c a +:+ nl +:+ b) with (String c (a +:+ nl +:+ b)).
  cbn [split_lines]. rewrite IH.
  destruct (Ascii.eqb c newline); [reflexivity |].
  destruct (split_lines_cons a) as [h [t ->]]. reflexivity.
Qed.

Lemma split_lines_newline_free (s : string) :
  newline_free s = true -> split_lines s = [s].
Proof.
  induction s as [|c s IH]; [reflexivity |].
  cbn [newline_free split_lines]. rewrite andb_true_iff, negb_true_iff.
  intros [-> H]. now rewrite IH.
Qed.

(** The lines of what [saveProcessedUrls] appends. *)
Lemma split_lines_join (u : string) (urls : list string) :
  Forall (fun u => newline_free u = true) (u :: urls) ->
  split_lines (join nl (u :: urls) +:+ nl) = (u :: urls) ++ [EmptyString].
Proof.
  revert u. induction urls as [|v urls IH]; intros u Hfree.
  - apply Forall_cons in Hfree as [Hu _]. unfold join. cbn [String.concat].
    rewrite <- (append_empty_r (u +:+ nl)), append_assoc, split_lines_app.
    now rewrite split_lines_newline_free.
  - apply Forall_cons in Hfree as [Hu Hrest]. unfold join in *.
    change (String.concat nl (u :: v :: urls))
      with (u +:+ nl +:+ String.concat nl (v :: urls)).
    rewrite !append_assoc, split_lines_app, IH by exact Hrest.
    now rewrite split_lines_newline_free.
Qed.

Lemma not_nonblank_empty : nonblank EmptyString = false.
Proof. unfold nonblank. now rewrite trim_empty. Qed.

(** The non-blank lines of the log after [saveProcessedUrls]: those it
    had, then the non-blank URLs saved. *)
Lemma saved_lines (newUrls : list string) (file : option string) :
  log_closed file ->
  Forall (fun u => newline_free u = true) newUrls ->
  List.filter nonblank
    (split_lines (or_empty (saveProcessedUrls newUrls file)))
  = List.filter nonblank (split_lines (or_empty file))
    ++ List.filter nonblank newUrls.
Proof.
  intros Hclosed Hfree. destruct newUrls as [|u urls].
  - cbn. now rewrite app_nil_r.
  - cbn [saveProcessedUrls appendFileSync or_empty].
    pose proof (split_lines_join u urls Hfree) as Hjoin.
    destruct file as [data|]; cbn [log_closed or_empty] in *.
    + destruct Hclosed as [-> | [s ->]].
      * change (EmptyString +:+ ?x) with x. rewrite Hjoin.
        rewrite List.filter_app. cbn [split_lines List.filter].
        rewrite not_nonblank_empty. now rewrite app_nil_r.
      * rewrite append_assoc, split_lines_app, Hjoin.
        rewrite <- (append_empty_r (s +:+ nl)), append_assoc, split_lines_app.
        rewrite !List.filter_app. cbn [split_lines List.filter].
        rewrite not_nonblank_empty. now rewrite !app_nil_r.
    + change (EmptyString +:+ ?x) with x. rewrite Hjoin.
      rewrite List.filter_app. cbn [split_lines List.filter].
      rewrite not_nonblank_empty. now rewrite app_nil_r.
Qed.

Lemma GoogleSearch_load_lines (file : option string) :
  GoogleSearch.loadProcessedUrls file
  = list_to_set (List.filter nonblank (split_lines (or_empty file))).
Proof.
  destruct file; [reflexivity |].
  cbn [or_empty split_lines List.filter]. now rewrite not_nonblank_empty.
Qed.

Lemma Part001_load_lines (file : option string) :
  Part001.loadProcessedUrls file
  = list_to_set (map normalizeUrl
                     (List.filter nonblank (split_lines (or_empty file)))).
Proof.
  destruct file; [reflexivity |].
  cbn [or_empty split_lines List.filter]. now rewrite not_nonblank_empty.
Qed.

Lemma elem_of_map_In {A B : Type} (f : A -> B) (l : list A) (y : B) :
  y ∈ map f l <-> exists x, In x l /\ y = f x.
Proof.
  rewrite list_elem_of_In, in_map_iff. split; intros [x [H1 H2]]; exists x; auto.
Qed.

(** X3.  The set googleSearch.js loads holds exactly the non-blank lines
    of the log, as they are; the set part_001 loads from the same log is
    its image under [normalizeUrl].  A log written by googleSearch.js is
    read by part_001 as the normalized forms of the URLs it holds. *)
Theorem loaded_sets_related :
  (forall data k,
      k ∈ GoogleSearch.loadProcessedUrls (Some data) <->
      In k (split_lines data) /\ nonblank k = true)
  /\ (forall file,
         Part001.loadProcessedUrls file
         = set_map normalizeUrl (GoogleSearch.loadProcessedUrls file)).
Proof.
  split.
  - intros data k. cbn [GoogleSearch.loadProcessedUrls].
    rewrite elem_of_list_to_set, list_elem_of_In. apply filter_In.
  - intros [data|]; [| cbn [GoogleSearch.loadProcessedUrls Part001.loadProcessedUrls];
                       set_solver].
    cbn [GoogleSearch.loadProcessedUrls Part001.loadProcessedUrls].
    apply set_eq. intros k.
    rewrite elem_of_list_to_set, elem_of_map_In, elem_of_map. split.
    + intros [x [Hx ->]]. exists x. split; [reflexivity |].
      now apply elem_of_list_to_set, list_elem_of_In.
    + intros [x [-> Hx]]. exists x. split; [| reflexivity].
      now apply elem_of_list_to_set, list_elem_of_In in Hx.
Qed.

(** X4.  Saving then loading.  When the log is absent, empty or ends with
    a line feed, and no saved URL holds a line feed, the set loaded after
    [saveProcessedUrls] is the set loaded before together with the
    non-blank URLs saved (normalized, in part_001); blank URLs are lost.
    The log is left ending with a line feed, so the condition on it
    holds again for the next run. *)
Theorem save_then_load (newUrls : list string) (file : option string) :
  log_closed file ->
  Forall (fun u => newline_free u = true) newUrls ->
  GoogleSearch.loadProcessedUrls (saveProcessedUrls newUrls file)
  = GoogleSearch.loadProcessedUrls file
    ∪ list_to_set (List.filter nonblank newUrls)
  /\ Part001.loadProcessedUrls (saveProcessedUrls newUrls file)
     = Part001.loadProcessedUrls file
       ∪ list_to_set (map normalizeUrl (List.filter nonblank newUrls))
  /\ log_closed (saveProcessedUrls newUrls file).
Proof.
  intros Hclosed Hfree. repeat apply conj.
  - rewrite !GoogleSearch_load_lines, saved_lines by assumption.
    apply list_to_set_app_L.
  - rewrite !Part001_load_lines, saved_lines by assumption.
    rewrite map_app. apply list_to_set_app_L.
  - destruct newUrls as [|u urls]; [exact Hclosed |].
    cbn [saveProcessedUrls appendFileSync log_closed]. right.
    exists (or_empty file +:+ join nl (u :: urls)). now rewrite append_assoc.
Qed.

(** The two facts of [toLowerCase] the statements on blank URLs and on
    empty keywords rest on: the empty string is its own lower-case form,
    and the lower-case form of no other string. *)
Hypothesis lower_of_empty : toLowerCase EmptyString = EmptyString.
Hypothesis lower_nonempty :
  forall s, toLowerCase s = EmptyString -> s = EmptyString.

Lemma blank_trim (url : string) : nonblank url = false -> trim url = EmptyString.
Proof. rewrite nonblank_truthy. now destruct (trim url). Qed.

(** X5.  A blank URL is never recognised as processed: no set loaded from
    a log, in either revision, holds a string that is blank once trimmed.
    So an item without a link, whose record has the empty URL, is new to
    every run. *)
Theorem blank_url_never_processed (file : option string) (url : string) :
  nonblank url = false ->
  (url ∉ GoogleSearch.loadProcessedUrls file)
  /\ (normalizeUrl url ∉ Part001.loadProcessedUrls file).
Proof.
  intros Hblank. split.
  - rewrite GoogleSearch_load_lines, elem_of_list_to_set, list_elem_of_In.
    intros Hin. apply filter_In in Hin as [_ Hnb]. congruence.
  - intros Hin.
    destruct file as [data|]; [| now apply not_elem_of_empty in Hin].
    cbn [Part001.loadProcessedUrls] in Hin.
    apply elem_of_list_to_set, elem_of_map_In in Hin as [line [Hl Heq]].
    apply filter_In in Hl as [_ Hnb].
    apply blank_trim in Hblank. unfold normalizeUrl in Heq.
    rewrite Hblank, lower_of_empty in Heq. symmetry in Heq.
    apply lower_nonempty in Heq.
    change (nonblank line = true) in Hnb. rewrite nonblank_truthy, Heq in Hnb.
    discriminate.
Qed.

(** ** Runs of [main] *)

Lemma filter_nil_iff {A : Type} (f : A -> bool) (l : list A) :
  List.filter f l = [] <-> forall x, In x l -> f x = false.
Proof.
  induction l as [|a l IH]; cbn [List.filter].
  - split; [intros _ x [] | reflexivity].
  - destruct (f a) eqn:E; split.
    + discriminate.
    + intros H. specialize (H a (or_introl eq_refl)). congruence.
    + intros H x [<- | Hx]; [exact E | now apply IH].
    + intros H. apply IH. intros x Hx. apply H. now right.
Qed.

Lemma filter_all_true {A : Type} (f : A -> bool) (l : list A) :
  Forall (fun x => f x = true) l -> List.filter f l = l.
Proof.
  induction 1 as [|a l Ha _ IH]; [reflexivity |].
  cbn [List.filter]. now rewrite Ha, IH.
Qed.

(** X6.  When the first request fails or brings no items, [main] appends
    nothing and leaves both files exactly as they were, in all three
    revisions: the CSV file is not created and the URL log not touched. *)
Theorem nothing_served_nothing_written
        (Date_parse : string -> JSDate) (remote : Remote) (config : Config)
        (fuel : nat) (files : Files) :
  (remote 0%nat 1%Q = Failure \/
   exists np, remote 0%nat 1%Q = Data None np \/ remote 0%nat 1%Q = Data (Some []) np) ->
  GoogleSearch.main Date_parse remote config (S fuel) files = Some ([], files)
  /\ Part001.main Date_parse remote config (S fuel) files = Some ([], files)
  /\ Part002Script.main Date_parse remote config (S fuel)
                        (google_search_results_csv files)
     = Some ([], google_search_results_csv files).
Proof.
  intros Hfirst.
  assert (Hall : exists e,
             outcome (fetchAllResults remote config (S fuel)) = Some (e, [])).
  { unfold fetchAllResults. cbn [fetchAllResults_loop length].
    destruct (ge_js 0 (or_Infinity (config_maxResults config)));
      [eexists; reflexivity |].
    destruct Hfirst as [-> | [np [-> | ->]]]; eexists; reflexivity. }
  assert (Hnew : forall seen, exists e,
             outcome (fetchNewResults Date_parse remote config seen (S fuel))
             = Some (e, []) /\ e <> Thrown).
  { intros seen. unfold fetchNewResults. cbn [fetchNewResults_loop length].
    destruct (lt_js 0 (config_maxResults config));
      [| eexists; split; [reflexivity | discriminate]].
    destruct Hfirst as [-> | [np [-> | ->]]];
      eexists; (split; [reflexivity | discriminate]). }
  destruct Hall as [e He]. repeat apply conj.
  - unfold GoogleSearch.main. now rewrite He.
  - unfold Part001.main.
    destruct (Hnew (Part001.loadProcessedUrls (processed_urls_txt files)))
      as [e' [-> He']]. now destruct e'.
  - unfold Part002Script.main. now rewrite He.
Qed.

(** X7.  googleSearch.js, run again on the same endpoint, appends nothing:
    provided the URL log was absent, empty or ended with a line feed, and
    every URL the first run appended is non-blank and holds no line feed,
    the second run finds all its results processed and leaves the files
    as the first run left them. *)
Theorem GoogleSearch_second_run_appends_nothing
        (Date_parse : string -> JSDate) (remote : Remote) (config : Config)
        (fuel : nat) (files files' : Files) (emitted : list ResultRecord) :
  log_closed (processed_urls_txt files) ->
  GoogleSearch.main Date_parse remote config fuel files = Some (emitted, files') ->
  Forall (fun r => nonblank (URL r) = true /\ newline_free (URL r) = true) emitted ->
  GoogleSearch.main Date_parse remote config fuel files' = Some ([], files').
Proof.
  intros Hclosed Hrun Hurls. unfold GoogleSearch.main in *.
  destruct (outcome (fetchAllResults remote config fuel)) as [[e raw]|];
    [| discriminate].
  destruct (GoogleSearch.newResults Date_parse config raw
              (GoogleSearch.loadProcessedUrls (processed_urls_txt files)))
    as [|r rs] eqn:Hnew.
  { injection Hrun as <- <-. now rewrite Hnew. }
  injection Hrun as <- <-. cbn [processed_urls_txt].
  assert (Hfree : Forall (fun u => newline_free u = true) (map URL (r :: rs))).
  { apply Forall_forall. intros u Hu.
    apply elem_of_map_In in Hu as [x [Hx ->]].
    rewrite Forall_forall in Hurls. apply Hurls. now apply list_elem_of_In. }
  destruct (save_then_load (map URL (r :: rs)) (processed_urls_txt files)
                           Hclosed Hfree) as [Hload _].
  match goal with
  | |- context [appendFileSync ?f ?d] =>
      change (appendFileSync f d) with (saveProcessedUrls (map URL (r :: rs)) f)
  end.
  rewrite Hload.
  rewrite (filter_all_true nonblank (map URL (r :: rs))).
  2: { apply Forall_forall. intros u Hu.
       apply elem_of_map_In in Hu as [x [Hx ->]].
       rewrite Forall_forall in Hurls. apply Hurls. now apply list_elem_of_In. }
  assert (Hnone : GoogleSearch.newResults Date_parse config raw
                    (GoogleSearch.loadProcessedUrls (processed_urls_txt files)
                     ∪ list_to_set (map URL (r :: rs))) = []).
  { unfold GoogleSearch.newResults in *. apply filter_nil_iff. intros x Hx.
    apply negb_false_iff, bool_decide_eq_true, elem_of_union.
    destruct (decide (URL x ∈ GoogleSearch.loadProcessedUrls
                                (processed_urls_txt files))) as [Hin | Hout];
      [now left | right].
    apply elem_of_list_to_set, elem_of_map_In. exists x. split; [| reflexivity].
    rewrite <- Hnew. apply filter_In. split; [exact Hx |].
    now apply negb_true_iff, bool_decide_eq_false. }
  now rewrite Hnone.
Qed.

Section Rerun.

Variable Date_parse : string -> JSDate.
Variable remote : Remote.
Variable config : Config.

(** A page all of whose acceptable items are processed leaves an empty
    accumulator empty. *)
Lemma processItems_all_seen (seen : gset string) (page : list Item) :
  (forall item, In item page -> passes Date_parse config item = true ->
                key (record_of item) ∈ seen) ->
  processItems Date_parse config seen page [] = [].
Proof.
  induction page as [|item rest IH]; intros Hseen; [reflexivity |].
  rewrite processItems_cons.
  destruct (passes Date_parse config item) eqn:Hp.
  - unfold unseen. rewrite bool_decide_eq_true_2; [cbn; apply IH |].
    + intros it Hin. apply Hseen. now right.
    + apply Hseen; [now left | exact Hp].
  - rewrite andb_false_r. apply IH. intros it Hin. apply Hseen. now right.
Qed.

Lemma fetchNewResults_loop_extends (seen : gset string) (fuel : nat)
      (log : list Q) (start : Q) (acc : list ResultRecord) (e : Exit)
      (res : list ResultRecord) :
  outcome (fetchNewResults_loop Date_parse remote config seen fuel log start acc)
  = Some (e, res) ->
  exists more, res = acc ++ more.
Proof.
  rewrite fetchNewResults_paginate.
  apply (paginate_invariant _ _ _ _ _ _ (fun x => exists more, x = acc ++ more)).
  - intros page acc' [more ->].
    destruct (processItems_extends Date_parse config seen page (acc ++ more))
      as [added ->].
    exists (more ++ added). now rewrite app_assoc.
  - auto.
  - exists []. now rewrite app_nil_r.
Qed.

(** A run that did not leave by the target has taken every acceptable
    item it was served: against a processed set that holds the old one
    and the keys of what was returned, the same pages give nothing. *)
Lemma fetchNewResults_loop_rerun (seen seen' : gset string) (fuel : nat)
      (log : list Q) (start : Q) (acc : list ResultRecord) (e : Exit)
      (res : list ResultRecord) :
  outcome (fetchNewResults_loop Date_parse remote config seen fuel log start acc)
  = Some (e, res) ->
  e <> TargetReached ->
  seen ⊆ seen' ->
  Forall (fun r => key r ∈ seen') res ->
  outcome (fetchNewResults_loop Date_parse remote config seen' fuel log start [])
  = Some (e, []).
Proof.
  intros Hrun Hexit Hsub Hres. revert log start acc Hrun.
  induction fuel as [|fuel IH]; intros log start acc Hrun; [discriminate |].
  revert Hrun. cbn [fetchNewResults_loop length].
  destruct (lt_js (length acc) (config_maxResults config)) eqn:Hlt;
    [| intros [= <- _]; contradiction].
  assert (Hlt0 : lt_js 0 (config_maxResults config) = true).
  { destruct (config_maxResults config); cbn [lt_js] in *; try congruence;
      try reflexivity.
    apply Nat.ltb_lt in Hlt. apply Nat.ltb_lt. lia. }
  assert (Hge0 : ge_js 0 (config_maxResults config) = false).
  { destruct (config_maxResults config); cbn [lt_js ge_js] in *;
      try congruence; try reflexivity.
    apply Nat.ltb_lt in Hlt0. apply Nat.leb_gt. lia. }
  rewrite Hlt0.
  destruct (remote (length log) start) as [| |[[|i page]|] np];
    try (intros [= <- _]; reflexivity).
  destruct (ge_js (length (processItems Date_parse config seen (i :: page) acc))
                  (config_maxResults config)) eqn:Hfull;
    [intros [= <- _]; contradiction |].
  intros Hrun.
  assert (Hkeys : Forall (fun r => key r ∈ seen')
                         (processItems Date_parse config seen (i :: page) acc)).
  { assert (Hext : exists more,
               res = processItems Date_parse config seen (i :: page) acc ++ more).
    { destruct np as [| | next]; [injection Hrun as _ <-; exists []; now rewrite app_nil_r | injection Hrun as _ <-; exists []; now rewrite app_nil_r |].
      destruct (Qeq_bool next 0); [injection Hrun as _ <-; exists []; now rewrite app_nil_r |].
      destruct (Qlt_bool 91 next); [injection Hrun as _ <-; exists []; now rewrite app_nil_r |].
      eapply fetchNewResults_loop_extends, Hrun. }
    destruct Hext as [more ->]. now apply Forall_app in Hres as [Hres _]. }
  assert (Hnone : processItems Date_parse config seen' (i :: page) [] = []).
  { apply processItems_all_seen. intros item Hin Hp.
    destruct (decide (key (record_of item) ∈ seen)) as [Hs | Hs];
      [now apply Hsub |].
    destruct (processItems_complete Date_parse config seen (i :: page) acc item
                                    Hfull Hin Hs Hp) as [r [Hr <-]].
    rewrite Forall_forall in Hkeys. apply Hkeys. now apply list_elem_of_In. }
  rewrite Hnone. cbn [length]. rewrite Hge0.
  revert Hrun.
  destruct np as [| | next];
    [intros [= <- _]; reflexivity | intros [= <- _]; reflexivity |].
  destruct (Qeq_bool next 0); [intros [= <- _]; reflexivity |].
  destruct (Qlt_bool 91 next); [intros [= <- _]; reflexivity |].
  apply IH.
Qed.

End Rerun.

(** X8.  The incremental fetch, run again on the same pages, returns
    nothing: when a run of [fetchNewResults] has left otherwise than by
    the target, a later run against any processed set that holds the old
    set and the normalized URLs of what was returned accepts no record:
    it ends the way the first run did, with an empty accumulator, which
    it returns unless it throws. *)
Theorem fetchNewResults_rerun_returns_nothing
        (Date_parse : string -> JSDate) (remote : Remote) (config : Config)
        (seen seen' : gset string) (fuel : nat) (e : Exit)
        (res : list ResultRecord) :
  outcome (fetchNewResults Date_parse remote config seen fuel) = Some (e, res) ->
  e <> TargetReached ->
  seen ⊆ seen' ->
  Forall (fun r => normalizeUrl (URL r) ∈ seen') res ->
  outcome (fetchNewResults Date_parse remote config seen' fuel) = Some (e, []) /\
  (e <> Thrown ->
   result (fetchNewResults Date_parse remote config seen' fuel) = Some []).
Proof.
  intros Hrun He Hsub Hres. unfold fetchNewResults in *.
  pose proof (fetchNewResults_loop_rerun Date_parse remote config seen seen' fuel
                [] 1%Q [] e res Hrun He Hsub Hres) as H.
  split; [exact H |]. intros Ht. now apply (result_outcome _ e).
Qed.

(** X9.  part_001, run again on the same endpoint after a run that
    returned otherwise than by the target, appends nothing: provided the
    URL log was absent, empty or ended with a line feed, and the
    normalized URL of every record the first run appended (the line
    written to the log) is non-blank, holds no line feed and is its own
    normalized form, the second run leaves the files as the first run
    left them. *)
Theorem Part001_second_run_appends_nothing
        (Date_parse : string -> JSDate) (remote : Remote) (config : Config)
        (fuel : nat) (files : Files) (e : Exit) (emitted : list ResultRecord) :
  log_closed (processed_urls_txt files) ->
  outcome (fetchNewResults Date_parse remote config
             (Part001.loadProcessedUrls (processed_urls_txt files)) fuel)
  = Some (e, emitted) ->
  e <> TargetReached ->
  e <> Thrown ->
  Forall (fun r => nonblank (key r) = true /\
                   newline_free (key r) = true /\
                   normalizeUrl (key r) = key r) emitted ->
  exists files',
    Part001.main Date_parse remote config fuel files = Some (emitted, files') /\
    Part001.main Date_parse remote config fuel files' = Some ([], files').
Proof.
  intros Hclosed Hrun He Ht Hurls. unfold Part001.main. rewrite Hrun.
  destruct emitted as [|r rs].
  { exists files. split; [now destruct e |]. rewrite Hrun. now destruct e. }
  eexists. split; [now destruct e |]. cbn [processed_urls_txt].
  set (keys := map (fun result => normalizeUrl (URL result)) (r :: rs)).
  assert (Hfree : Forall (fun u => newline_free u = true) keys).
  { apply Forall_forall. intros u Hu.
    apply elem_of_map_In in Hu as [x [Hx ->]].
    rewrite Forall_forall in Hurls. apply Hurls. now apply list_elem_of_In. }
  assert (Hnb : Forall (fun u => nonblank u = true) keys).
  { apply Forall_forall. intros u Hu.
    apply elem_of_map_In in Hu as [x [Hx ->]].
    rewrite Forall_forall in Hurls. apply Hurls. now apply list_elem_of_In. }
  destruct (save_then_load keys (processed_urls_txt files) Hclosed Hfree)
    as (_ & Hload & _).
  rewrite (filter_all_true nonblank keys Hnb) in Hload.
  assert (Hagain :
            outcome (fetchNewResults Date_parse remote config
                       (Part001.loadProcessedUrls
                          (saveProcessedUrls keys (processed_urls_txt files))) fuel)
            = Some (e, [])).
  { apply (fetchNewResults_loop_rerun Date_parse remote config
             (Part001.loadProcessedUrls (processed_urls_txt files)) _ fuel
             [] 1%Q [] e (r :: rs) Hrun He).
    - rewrite Hload. apply union_subseteq_l.
    - rewrite Hload. apply Forall_forall. intros x Hx.
      apply elem_of_union. right.
      apply elem_of_list_to_set, elem_of_map_In.
      exists (key x). split.
      + unfold keys. apply in_map_iff. exists x. split; [reflexivity |].
        now apply list_elem_of_In.
      + symmetry. rewrite Forall_forall in Hurls. now apply Hurls. }
  rewrite Hagain. now destruct e.
Qed.

(** ** More on the two loops *)

Section GuardedInvariant.

Context {A : Type}.
Variable remote : Remote.
Variable continue : list A -> bool.
Variable absorb : list Item -> list A -> list A.
Variable full : list A -> bool.
Variable finish : list A -> Exit * list A.
Variable broken : Exit.

Abbreviation gloop := (paginate remote continue absorb full finish broken).

(** An invariant that a page keeps when the turn has started holds of the
    accumulator at the end. *)
Lemma paginate_invariant_guarded (I : list A -> Prop) (fuel : nat)
      (log : list Q) (start : Q) (acc : list A) (e : Exit) (res : list A) :
  (forall page acc, continue acc = true -> I acc -> I (absorb page acc)) ->
  (forall acc, I acc -> I (snd (finish acc))) ->
  I acc ->
  outcome (gloop fuel log start acc) = Some (e, res) ->
  I res.
Proof.
  intros Ha Hc. revert log start acc.
  induction fuel as [|fuel IH]; intros log start acc Hacc; [discriminate |].
  cbn [paginate]. branches; try (intros [= <- <-]; auto).
  apply IH. auto.
Qed.

(** Against an endpoint that always points to a later page, the requests
    are at most as many as the offsets left up to the ceiling. *)
Lemma paginate_requested_length (fuel : nat) (log : list Q) (start : Q)
      (acc : list A) (z : Z) :
  advancing remote ->
  (start == inject_Z z)%Q ->
  (z <= 91)%Z ->
  (length (requested (gloop fuel log start acc))
   <= length log + Z.to_nat (92 - z))%nat.
Proof.
  intros Hadv. revert log start acc z.
  induction fuel as [|fuel IH]; intros log start acc z Hz Hs; [cbn; lia |].
  cbn [paginate]. branches; offsets; try rewrite length_app; cbn [length];
    try lia.
  match goal with H : remote _ _ = Data _ (Next ?q) |- _ =>
    destruct (Hadv _ _ _ _ (ex_intro _ z Hz) H) as [[z' Hz'] Hlt] end.
  pose proof (whole_lt _ _ _ _ Hz Hz' Hlt).
  match goal with H : (_ <= 91)%Q |- _ =>
    pose proof (whole_le_91 _ _ Hz' H) end.
  match goal with |- context [gloop fuel ?l ?s ?a] =>
    specialize (IH l s a z' Hz') end.
  rewrite length_app in IH. cbn [length] in IH.
  etransitivity; [apply IH; lia | lia].
Qed.

(** Against such an endpoint no offset is requested twice. *)
Lemma paginate_requested_NoDup (fuel : nat) (log : list Q) (start : Q)
      (acc : list A) :
  advancing remote ->
  whole start ->
  Forall (fun s => (s < start)%Q) log ->
  NoDup log ->
  NoDup (requested (gloop fuel log start acc)).
Proof.
  intros Hadv. revert log start acc.
  induction fuel as [|fuel IH]; intros log start acc Hw Hlt Hnd; [exact Hnd |].
  assert (Hnd' : NoDup (log ++ [start])).
  { apply NoDup_app. repeat split; [exact Hnd | | apply NoDup_singleton].
    intros x Hx Hx'. apply list_elem_of_singleton in Hx'. subst x.
    rewrite Forall_forall in Hlt. exact (Qlt_irrefl _ (Hlt start Hx)). }
  cbn [paginate]. branches; try assumption.
  match goal with H : remote _ _ = Data _ (Next ?q) |- _ =>
    destruct (Hadv _ _ _ _ Hw H) as [Hw' Hlt'] end.
  apply IH; [exact Hw' | | exact Hnd'].
  apply Forall_app. split; [| constructor; [exact Hlt' | constructor]].
  eapply Forall_impl; [exact Hlt |]. cbn beta. intros x Hx.
  exact (Qlt_trans _ _ _ Hx Hlt').
Qed.

End GuardedInvariant.

Lemma served_app (remote : Remote) (log more : list Q) (item : Item) :
  served remote log item -> served remote (log ++ more) item.
Proof.
  intros (k & s & page & np & Hk & Hr & Hin).
  exists k, s, page, np. split; [| now split].
  now apply lookup_app_l_Some.
Qed.

(** Every record of the accumulator comes from an item served in answer
    to a request of the run. *)
Lemma fetchNewResults_loop_served (Date_parse : string -> JSDate)
      (remote : Remote) (config : Config) (seen : gset string)
      (fuel : nat) (log : list Q) (start : Q) (acc : list ResultRecord)
      (e : Exit) (res : list ResultRecord) :
  Forall (fun r => exists item,
              served remote log item /\ r = record_of item /\
              passes Date_parse config item = true) acc ->
  outcome (fetchNewResults_loop Date_parse remote config seen fuel log start acc)
  = Some (e, res) ->
  Forall (fun r => exists item,
              served remote
                (requested (fetchNewResults_loop Date_parse remote config seen
                              fuel log start acc)) item /\
              r = record_of item /\
              passes Date_parse config item = true) res.
Proof.
  revert log start acc.
  induction fuel as [|fuel IH]; intros log start acc Hacc; [discriminate |].
  cbn [fetchNewResults_loop].
  destruct (lt_js _ _); [| intros [= <- <-]; exact Hacc].
  assert (Hmono : Forall (fun r => exists item,
                            served remote (log ++ [start]) item /\
                            r = record_of item /\
                            passes Date_parse config item = true) acc).
  { eapply Forall_impl; [exact Hacc |]. cbn beta.
    intros r (item & Hs & Hr). exists item.
    split; [now apply served_app | exact Hr]. }
  destruct (remote (length log) start) as [| |[[|i page]|] np] eqn:Hr;
    try (intros [= <- <-]; exact Hmono).
  assert (Hacc' : Forall (fun r => exists item,
                            served remote (log ++ [start]) item /\
                            r = record_of item /\
                            passes Date_parse config item = true)
                         (processItems Date_parse config seen (i :: page) acc)).
  { destruct (processItems_from_page Date_parse config seen (i :: page) acc)
      as [added [-> Hadded]].
    apply Forall_app. split; [exact Hmono |].
    eapply Forall_impl; [exact Hadded |]. cbn beta.
    intros r [_ (item & Hin & -> & Hp)]. exists item.
    split; [| now split].
    exists (length log), start, (i :: page), np.
    split; [now apply list_lookup_middle | now split]. }
  destruct (ge_js _ _); [intros [= <- <-]; exact Hacc' |].
  destruct np as [| | next]; try (intros [= <- <-]; exact Hacc').
  destruct (Qeq_bool next 0); [intros [= <- <-]; exact Hacc' |].
  destruct (Qlt_bool 91 next); [intros [= <- <-]; exact Hacc' |].
  apply IH. exact Hacc'.
Qed.

(** X10.  What [fetchNewResults] returns: never more records than a
    configured target, no two with the same normalized URL, each the
    record of an item of a page the endpoint served in answer to a
    request of the run, and one that passes the avoid-keyword and date
    tests. *)
Theorem fetchNewResults_result_invariants
        (Date_parse : string -> JSDate) (remote : Remote) (config : Config)
        (seen : gset string) (fuel : nat) (e : Exit) (res : list ResultRecord) :
  outcome (fetchNewResults Date_parse remote config seen fuel) = Some (e, res) ->
  (forall m, config_maxResults config = num m -> (length res <= m)%nat)
  /\ NoDup (map (fun r => normalizeUrl (URL r)) res)
  /\ Forall (fun r => exists item,
                 served remote
                   (requested (fetchNewResults Date_parse remote config seen fuel))
                   item /\
                 r = record_of item /\ passes Date_parse config item = true) res.
Proof.
  intros Hrun. split; [| split].
  - revert Hrun. unfold fetchNewResults. rewrite fetchNewResults_paginate.
    intros Hrun m Hm. revert Hrun.
    apply (paginate_invariant_guarded _ _ _ _ _ _ (fun x => (length x <= m)%nat)).
    + intros page acc Hc _. rewrite Hm in Hc. cbn [lt_js] in Hc.
      apply Nat.ltb_lt in Hc.
      now apply (processItems_length_le Date_parse config seen m).
    + auto.
    + cbn. lia.
  - revert Hrun. unfold fetchNewResults. rewrite fetchNewResults_paginate.
    apply (paginate_invariant _ _ _ _ _ _ (fun x => NoDup (map key x))).
    + intros page acc. apply processItems_NoDup.
    + auto.
    + constructor.
  - revert Hrun. unfold fetchNewResults.
    apply fetchNewResults_loop_served. constructor.
Qed.

(** X11.  Against an endpoint whose next-page offsets always advance,
    either loop issues at most 91 requests and never asks for the same
    offset twice. *)
Theorem advancing_endpoint_bounds_requests
        (Date_parse : string -> JSDate) (remote : Remote) (config : Config)
        (seen : gset string) (fuel : nat) :
  advancing remote ->
  ((length (requested (fetchNewResults Date_parse remote config seen fuel)) <= 91)%nat
   /\ NoDup (requested (fetchNewResults Date_parse remote config seen fuel)))
  /\ ((length (requested (fetchAllResults remote config fuel)) <= 91)%nat
      /\ NoDup (requested (fetchAllResults remote config fuel))).
Proof.
  intros Hadv. unfold fetchNewResults, fetchAllResults.
  rewrite fetchNewResults_paginate, fetchAllResults_paginate.
  repeat apply conj.
  - etransitivity;
      [apply (paginate_requested_length _ _ _ _ _ _ _ _ _ _ 1%Z);
       [exact Hadv | reflexivity | lia] |].
    cbn [length]. change (Z.to_nat (92 - 1)) with 91%nat. lia.
  - apply paginate_requested_NoDup;
      [exact Hadv | exact whole_1 | constructor | constructor].
  - etransitivity;
      [apply (paginate_requested_length _ _ _ _ _ _ _ _ _ _ 1%Z);
       [exact Hadv | reflexivity | lia] |].
    cbn [length]. change (Z.to_nat (92 - 1)) with 91%nat. lia.
  - apply paginate_requested_NoDup;
      [exact Hadv | exact whole_1 | constructor | constructor].
Qed.

(** X12.  The target of [fetchAllResults] only truncates: with a positive
    target, what it returns is the first [maxResults] of the items it
    returns without a target (whenever that run returns), in the order
    served. *)
Theorem fetchAllResults_target_truncates
        (remote : Remote) (config : Config) (m fuel : nat) (raw : list Item) :
  config_maxResults config = num (S m) ->
  all_served remote fuel = Some raw ->
  result (fetchAllResults remote config fuel) = Some (firstn (S m) raw).
Proof.
  intros Hm Hserved. unfold all_served in Hserved.
  apply result_Some in Hserved as [e [Hrun _]].
  apply (fetchAllResults_loop_truncates remote config m fuel [] 1%Q [] e raw Hm Hrun).
  cbn. lia.
Qed.

(** ** Dates *)

Lemma scan_metatags_None (Date_parse : string -> JSDate)
      (meta : list (gmap string string)) :
  scan_metatags Date_parse meta = None <->
  Forall (fun tag => truthy_field tag "article:published_time" = None /\
                     truthy_field tag "og:published_time" = None) meta.
Proof.
  induction meta as [|tag rest IH]; cbn [scan_metatags].
  - split; [constructor | reflexivity].
  - destruct (truthy_field tag "article:published_time") eqn:Ea.
    + split; [discriminate |]. intros H. apply Forall_cons in H as [[H _] _].
      congruence.
    + destruct (truthy_field tag "og:published_time") eqn:Eo.
      * split; [discriminate |]. intros H. apply Forall_cons in H as [[_ H] _].
        congruence.
      * rewrite IH. split.
        -- intros H. now constructor.
        -- intros H. now apply Forall_cons in H as [_ H].
Qed.

(** X13.  [getPublishedDate] returns null exactly when the item has no
    metadata tags or none of its tags holds a non-empty
    [article:published_time] or [og:published_time].  The first tag that
    holds either decides, whatever the later tags hold: when it holds a
    non-empty [article:published_time] that one is read, whatever its
    [og:published_time]; when it holds none, its [og:published_time] is
    read. *)
Theorem getPublishedDate_reads_first_dated_tag (Date_parse : string -> JSDate) :
  (forall item,
      getPublishedDate Date_parse item = None <->
      forall pm meta,
        pagemap item = Some pm -> metatags pm = Some meta ->
        Forall (fun tag => truthy_field tag "article:published_time" = None /\
                           truthy_field tag "og:published_time" = None) meta)
  /\ (forall t l undated tag rest v,
         Forall (fun tag => truthy_field tag "article:published_time" = None /\
                            truthy_field tag "og:published_time" = None) undated ->
         truthy_field tag "article:published_time" = Some v ->
         getPublishedDate Date_parse
           {| title := t; link := l;
              pagemap := Some {| metatags := Some (undated ++ tag :: rest) |} |}
         = Some (Date_parse v))
  /\ (forall t l undated tag rest v,
         Forall (fun tag => truthy_field tag "article:published_time" = None /\
                            truthy_field tag "og:published_time" = None) undated ->
         truthy_field tag "article:published_time" = None ->
         truthy_field tag "og:published_time" = Some v ->
         getPublishedDate Date_parse
           {| title := t; link := l;
              pagemap := Some {| metatags := Some (undated ++ tag :: rest) |} |}
         = Some (Date_parse v)).
Proof.
  split; [| split].
  - intros item. unfold getPublishedDate.
    destruct (pagemap item) as [[[meta|]]|]; cbn [metatags].
    + rewrite scan_metatags_None. split.
      * intros H pm meta' [= <-] [= <-]. exact H.
      * intros H. now apply (H _ meta eq_refl).
    + split; [intros _ pm meta [= <-] H; discriminate | reflexivity].
    + split; [intros _ pm meta H; discriminate | reflexivity].
  - intros t l undated tag rest v Hundated Hv. cbn [getPublishedDate pagemap metatags].
    induction Hundated as [|u us [Ha Ho] _ IH]; cbn [app scan_metatags].
    + now rewrite Hv.
    + now rewrite Ha, Ho.
  - intros t l undated tag rest v Hundated Hna Hv.
    cbn [getPublishedDate pagemap metatags].
    induction Hundated as [|u us [Ha Ho] _ IH]; cbn [app scan_metatags].
    + now rewrite Hna, Hv.
    + now rewrite Ha, Ho.
Qed.

(** X14.  A minimum date that is empty or does not parse switches the
    date filter off: no item is rejected on date grounds, whatever its
    metadata; and an item whose first published date does not parse is
    never rejected on date grounds either. *)
Theorem unparsable_dates_reject_nothing
        (Date_parse : string -> JSDate) (config : Config) (item : Item) :
  (config_minDate config = Some EmptyString \/
   (exists d, config_minDate config = Some d /\ Date_parse d = None) \/
   getPublishedDate Date_parse item = Some None) ->
  publishedBeforeMinDate Date_parse config item = false
  /\ passes Date_parse config item
     = passes Date_parse (without_minDate config) item.
Proof.
  intros H.
  assert (Hd : publishedBeforeMinDate Date_parse config item = false).
  { unfold publishedBeforeMinDate, minDateObj.
    destruct H as [-> | [[d [-> Hd]] | Hp]].
    - reflexivity.
    - destruct (truthy d); [| reflexivity]. rewrite Hd.
      destruct (getPublishedDate Date_parse item) as [[p|]|]; reflexivity.
    - rewrite Hp. destruct (config_minDate config) as [d|]; [| reflexivity].
      destruct (truthy d); reflexivity. }
  split; [exact Hd |]. unfold passes. now rewrite Hd.
Qed.

(** ** Avoid keywords, CSV fields and queries *)

Lemma includes_empty (s : string) : includes s EmptyString = true.
Proof. destruct s; reflexivity. Qed.

(** X15.  Edge cases of [containsAvoidKeyword]: an empty list rejects no
    title; an empty string among the keywords rejects every title; adding
    keywords never un-rejects a title. *)
Theorem containsAvoidKeyword_edges :
  (forall text, containsAvoidKeyword text [] = false)
  /\ (forall text kws,
         In EmptyString kws -> containsAvoidKeyword text kws = true)
  /\ (forall text kws more,
         containsAvoidKeyword text kws = true ->
         containsAvoidKeyword text (kws ++ more) = true).
Proof.
  repeat apply conj.
  - reflexivity.
  - intros text kws Hin. unfold containsAvoidKeyword. apply existsb_exists.
    exists EmptyString. split; [exact Hin |].
    rewrite lower_of_empty. apply includes_empty.
  - intros text kws more H. unfold containsAvoidKeyword in *.
    rewrite existsb_app, H. reflexivity.
Qed.

Lemma read_field_escaped (t rest : string) :
  match rest with
  | String c _ => Ascii.eqb c dquote = false
  | EmptyString => True
  end ->
  read_field (replace_quotes t +:+ dq +:+ rest) = Some (t, rest).
Proof.
  intros Hrest. induction t as [|c t IH].
  - change (replace_quotes EmptyString +:+ dq +:+ rest) with (String dquote rest).
    cbn [read_field]. rewrite Ascii.eqb_refl.
    destruct rest as [|b r]; [reflexivity | now rewrite Hrest].
  - cbn [replace_quotes]. destruct (Ascii.eqb c dquote) eqn:E.
    + apply Ascii.eqb_eq in E. subst c.
      change (String dquote (String dquote (replace_quotes t)) +:+ dq +:+ rest)
        with (String dquote (String dquote (replace_quotes t +:+ dq +:+ rest))).
      cbn [read_field]. rewrite Ascii.eqb_refl. now rewrite IH.
    + change (String c (replace_quotes t) +:+ dq +:+ rest)
        with (String c (replace_quotes t +:+ dq +:+ rest)).
      cbn [read_field]. rewrite E. now rewrite IH.
Qed.

Lemma read_row_csv_row (r : ResultRecord) (rest : string) :
  read_row (csv_row r +:+ rest) = Some (r, rest).
Proof.
  unfold csv_row. rewrite !append_assoc.
  change (dq +:+ ?x) with (String dquote x) at 1.
  cbn [read_row]. change (Ascii.eqb dquote dquote) with true. cbn iota.
  rewrite read_field_escaped by reflexivity.
  change ("," +:+ dq +:+ ?x) with (String ","%char (String dquote x)).
  cbn iota. change (Ascii.eqb ","%char ","%char) with true.
  change (Ascii.eqb dquote dquote) with true. cbn [andb]. cbn iota.
  rewrite read_field_escaped by reflexivity.
  change (nl +:+ rest) with (String newline rest). cbn iota.
  change (Ascii.eqb newline newline) with true. cbn iota. now destruct r.
Qed.

Lemma csv_rows_injective (rs1 rs2 : list ResultRecord) :
  csv_rows rs1 = csv_rows rs2 -> rs1 = rs2.
Proof.
  revert rs2. induction rs1 as [|r1 rs1 IH]; intros [|r2 rs2] H.
  - reflexivity.
  - rewrite csv_rows_cons in H. discriminate H.
  - rewrite csv_rows_cons in H. discriminate H.
  - rewrite !csv_rows_cons in H.
    pose proof (read_row_csv_row r1 (csv_rows rs1)) as H1.
    rewrite H, read_row_csv_row in H1. injection H1 as <- H1.
    f_equal. apply IH. now symmetry.
Qed.

Lemma appendToCSV_content :
  (forall results old,
      appendToCSV results (Some old) = Some (old +:+ csv_rows results))
  /\ (forall results,
         appendToCSV results None = Some (header +:+ csv_rows results)).
Proof.
  split; intros; unfold appendToCSV, appendFileSync; cbn [negb or_empty];
    now rewrite fold_rows.
Qed.

Lemma append_cancel_l (a x y : string) : a +:+ x = a +:+ y -> x = y.
Proof.
  induction a as [|c a IH]; cbn; [auto |]. intros [= H]. now apply IH.
Qed.

(** X16.  The CSV encoding loses nothing: two lists of records that
    [appendToCSV] would write alike to the same file are the same list,
    and a field is recovered from its escaped form. *)
Theorem appendToCSV_injective :
  (forall rs1 rs2 file,
      appendToCSV rs1 file = appendToCSV rs2 file -> rs1 = rs2)
  /\ (forall a b, escapeCSV a = escapeCSV b -> a = b).
Proof.
  split.
  - intros rs1 rs2 file H. apply csv_rows_injective.
    destruct file as [old|].
    + rewrite !(proj1 appendToCSV_content) in H.
      injection H as H. now apply append_cancel_l in H.
    + rewrite !(proj2 appendToCSV_content) in H.
      injection H as H. exact H.
  - intros a b H. unfold escapeCSV in H. apply append_cancel_l in H.
    pose proof (read_field_escaped a EmptyString I) as Ha.
    pose proof (read_field_escaped b EmptyString I) as Hb.
    change (dq +:+ EmptyString) with dq in Ha, Hb.
    rewrite H, Hb in Ha. now injection Ha.
Qed.




Lemma join_truthy_nil (sep : string) (l : list string) :
  Forall (fun s => truthy s = true) l ->
  join sep l = EmptyString -> l = [].
Proof.
  intros Hall H. destruct l as [|x xs]; [reflexivity |].
  apply Forall_cons in Hall as [Hx _].
  apply (join_cons_truthy sep x xs) in Hx. rewrite H in Hx. discriminate.
Qed.

Lemma spec_clause_None (c : SearchCriteria) (cat : Category) :
  spec_clause c cat = None <-> category_empty c cat.
Proof.
  destruct cat; cbn [spec_clause category_empty]; unfold group_clause;
    try (destruct (terms _); split; intros H;
         first [reflexivity | discriminate H]).
  destruct (minDate c) as [[|a d]|]; cbn; split; intros H;
    first [reflexivity | discriminate H].
Qed.

Lemma omap_nil_iff {A B : Type} (f : A -> option B) (l : list A) :
  omap f l = [] <-> forall x, In x l -> f x = None.
Proof.
  induction l as [|a l IH].
  - split; [intros _ x [] | reflexivity].
  - change (omap f (a :: l))
      with (match f a with Some y => y :: omap f l | None => omap f l end).
    destruct (f a) eqn:E; split.
    + discriminate.
    + intros H. specialize (H a (or_introl eq_refl)). congruence.
    + intros H x [<- | Hx]; [exact E | now apply IH].
    + intros H. apply IH. intros x Hx. apply H. now right.
Qed.

(** X18.  [buildQuery] returns the empty query exactly when every
    category is empty or absent (an empty minimum date counting as
    absent); in particular a configuration without criteria searches for
    the empty string. *)
Theorem buildQuery_empty_iff (c : SearchCriteria) :
  buildQuery c = EmptyString <-> forall cat, category_empty c cat.
Proof.
  rewrite buildQuery_spec_query. unfold spec_query. split.
  - intros H cat. apply spec_clause_None.
    apply join_truthy_nil in H.
    + rewrite omap_nil_iff in H. apply H. destruct cat; cbn; tauto.
    + apply Forall_forall. intros s Hs.
      apply list_elem_of_omap in Hs as [cat' [_ Hcat]].
      now apply spec_clause_truthy in Hcat.
  - intros H.
    assert (Hnil : omap (spec_clause c) category_order = []).
    { apply omap_nil_iff. intros cat _. now apply spec_clause_None. }
    now rewrite Hnil.
Qed.

(** X19.  [buildQuery] of part_002.  It raises a TypeError exactly when
    keywords, domains or locations is absent; with the three lists
    non-empty it builds the query googleSearch.js builds from the same
    criteria without title keywords and avoid keywords; with an empty
    keywords list the query it builds starts with an empty pair of
    parentheses. *)
Theorem Part002_buildQuery_behaviour (c : SearchCriteria) :
  (Part002.buildQuery c = None <->
   keywords c = None \/ domains c = None \/ locations c = None)
  /\ (forall k ks d ds l ls,
         keywords c = Some (k :: ks) ->
         domains c = Some (d :: ds) ->
         locations c = Some (l :: ls) ->
         Part002.buildQuery c = Some (buildQuery (part002_view c)))
  /\ (forall q,
         keywords c = Some [] ->
         Part002.buildQuery c = Some q ->
         startsWith q "()" = true).
Proof.
  split; [| split].
  - unfold Part002.buildQuery.
    destruct (keywords c), (domains c), (locations c); split;
      try discriminate; try tauto; intros [H | [H | H]]; discriminate H.
  - intros k ks d ds l ls Hk Hd Hl.
    rewrite (Part002_buildQuery_spec c k d l ks ds ls Hk Hd Hl).
    rewrite buildQuery_spec_query. reflexivity.
  - intros q Hk. unfold Part002.buildQuery. rewrite Hk.
    destruct (domains c) as [dm|]; [| discriminate].
    destruct (locations c) as [loc|]; [| discriminate].
    intros [= <-]. cbn [List.filter Part002.quoteJoin map join String.concat truthy].
    unfold join. cbn [String.concat].
    reflexivity.
Qed.

(** X20.  The filter of googleSearch.js and part_002.  [filteredResults]
    holds exactly the records of the raw items that pass the avoid-keyword
    and date tests, in the order served and as often as served; it works
    page by page; and what googleSearch.js appends is what is left of it
    once the records whose URL is in the processed set are dropped. *)
Theorem filteredResults_keeps_passing_items
        (Date_parse : string -> JSDate) (config : Config) :
  (forall rawItems,
      filteredResults Date_parse config rawItems
      = map record_of (List.filter (passes Date_parse config) rawItems))
  /\ (forall page1 page2,
         filteredResults Date_parse config (page1 ++ page2)
         = filteredResults Date_parse config page1
           ++ filteredResults Date_parse config page2)
  /\ (forall rawItems seen r,
         In r (GoogleSearch.newResults Date_parse config rawItems seen) <->
         In r (filteredResults Date_parse config rawItems) /\ (URL r ∉ seen)).
Proof.
  split; [| split].
  - apply filteredResults_filter.
  - intros page1 page2. rewrite !filteredResults_filter.
    now rewrite List.filter_app, map_app.
  - intros rawItems seen r. unfold GoogleSearch.newResults.
    rewrite filter_In, negb_true_iff, bool_decide_eq_false. reflexivity.
Qed.

Lemma newline_free_app (a b : string) :
  newline_free (a +:+ b) = newline_free a && newline_free b.
Proof.
  induction a as [|c a IH]; [reflexivity |].
  change (String c a +:+ b) with (String c (a +:+ b)).
  cbn [newline_free]. now rewrite IH, andb_assoc.
Qed.

(** X21.  A URL log whose last line lacks its line feed.
    [saveProcessedUrls] appends right after it, so the first URL saved is
    glued to that line: the sets loaded afterwards hold the glued string
    in place of the two URLs. *)
Theorem unterminated_log_glues_first_url (p s u : string) :
  log_closed (Some p) ->
  newline_free s = true ->
  newline_free u = true ->
  GoogleSearch.loadProcessedUrls (saveProcessedUrls [u] (Some (p +:+ s)))
  = GoogleSearch.loadProcessedUrls (Some p)
    ∪ list_to_set (List.filter nonblank [s +:+ u])
  /\ Part001.loadProcessedUrls (saveProcessedUrls [u] (Some (p +:+ s)))
     = Part001.loadProcessedUrls (Some p)
       ∪ list_to_set (map normalizeUrl (List.filter nonblank [s +:+ u])).
Proof.
  intros Hclosed Hs Hu.
  assert (Hsave : saveProcessedUrls [u] (Some (p +:+ s))
                  = saveProcessedUrls [s +:+ u] (Some p)).
  { cbn [saveProcessedUrls appendFileSync or_empty join String.concat].
    unfold join, appendFileSync. cbn [String.concat or_empty].
    now rewrite !append_assoc. }
  assert (Hfree : Forall (fun x => newline_free x = true) [s +:+ u]).
  { constructor; [| constructor]. now rewrite newline_free_app, Hs, Hu. }
  rewrite Hsave. split.
  - rewrite !GoogleSearch_load_lines, saved_lines by assumption.
    apply list_to_set_app_L.
  - rewrite !Part001_load_lines, saved_lines by assumption.
    rewrite map_app. apply list_to_set_app_L.
Qed.

End Properties.

(** * Examples

    The statements above at concrete inputs, and the inputs that refute
    the sentences of the specification that had to be amended.  The
    examples are text whose letters and white space are ASCII, on which
    the built-ins of the runtime are [ascii_toLowerCase] and
    [ascii_trim]. *)

#[local] Existing Instance ascii_runtime.

Lemma ascii_trim_empty : trim EmptyString = EmptyString.
Proof. reflexivity. Qed.

Lemma ascii_lower_of_empty : toLowerCase EmptyString = EmptyString.
Proof. reflexivity. Qed.

Lemma ascii_lower_nonempty (s : string) :
  toLowerCase s = EmptyString -> s = EmptyString.
Proof. destruct s; [reflexivity | discriminate]. Qed.

(** The example of the specification, on the ASCII runtime. *)
Lemma avoid_keyword_example :
  ascii_toLowerCase cleared_title = lowered_cleared_title
  /\ containsAvoidKeyword cleared_title (config_avoidKeywords readme_config) = true
  /\ filter_step iso_date_parse readme_config []
                 (plain_item cleared_title "http://a.com/job") = []
  /\ processItems iso_date_parse readme_config ∅
                  [plain_item cleared_title "http://a.com/job"] [] = [].
Proof.
  assert (H : containsAvoidKeyword cleared_title
                (config_avoidKeywords readme_config) = true).
  { apply (proj2 (proj2 (proj2 avoid_keyword_is_caseless_substring)));
      [reflexivity | reflexivity | now left]. }
  split; [reflexivity |]. split; [exact H |].
  apply (proj1 (proj2 (proj2 avoid_keyword_is_caseless_substring))
               iso_date_parse readme_config ∅
               (plain_item cleared_title "http://a.com/job") []).
  exact H.
Defined.

Lemma query_clauses_example :
  Part002.buildQuery readme_criteria
  = Some (join " " (omap (spec_clause readme_criteria)
                         [Keywords; Domains; Locations; MinimumDate])).
Proof.
  apply (proj2 (proj2 query_clauses_per_revision) readme_criteria
               "experienced" ["senior"] "workday.com" ["icims.com"]
               "Remote" ["USA"]); reflexivity.
Defined.

(** C3 as stated fails on part_002: with every category filled in, its
    query has no clause for the title keywords nor for the avoid
    keywords. *)
Lemma Part002_query_misses_clauses :
  Part002.buildQuery readme_criteria <> Some (spec_query readme_criteria).
Proof. vm_compute. discriminate. Qed.



(** On part_002 an empty list leaves an empty pair of parentheses. *)
Example Part002_empty_keywords :
  Part002.buildQuery
    {| intitleKeywords := None; keywords := Some []; domains := Some ["workday.com"];
       locations := Some ["Remote"]; minDate := None; avoidKeywords := None |}
  = Some ("() (site:workday.com) (" +:+ dq +:+ "Remote" +:+ dq +:+ ")").
Proof. reflexivity. Qed.


Lemma emitted_urls_example :
  Forall (fun r => normalizeUrl (URL r)
                   ∉ Part001.loadProcessedUrls (processed_urls_txt repost_files))
         [ {| Title := "Dev"; URL := "http://a.com/2" |} ].
Proof.
  apply (proj1 (proj2 emitted_urls_not_in_processed_set)
               iso_date_parse (one_page repost_page) (plain_config 10) 5
               repost_files _
               {| processed_urls_txt :=
                    Some ("http://a.com/1" +:+ nl +:+ "http://a.com/2" +:+ nl);
                  google_search_results_csv :=
                    Some (header +:+ csv_rows [ {| Title := "Dev"; URL := "http://a.com/2" |} ]) |}).
  vm_compute. reflexivity.
Defined.

(** C1 as stated fails on googleSearch.js: a URL logged in lower case and
    served in capitals is appended again. *)
Lemma GoogleSearch_emits_processed_url :
  exists emitted files',
    GoogleSearch.main iso_date_parse capitals_remote (plain_config 10) 5 capitals_files
    = Some (emitted, files') /\
    ~ Forall (fun r => normalizeUrl (URL r)
                       ∉ GoogleSearch.loadProcessedUrls
                           (processed_urls_txt capitals_files))
             emitted.
Proof.
  eexists. eexists. split; [vm_compute; reflexivity |].
  intros H. apply Forall_cons in H as [H _]. apply H.
  refine (proj1 (bool_decide_eq_true _) _). vm_compute. reflexivity.
Qed.

Lemma page_acceptance_example :
  (exists added,
      processItems iso_date_parse (plain_config 1) {[ "http://a.com/1" ]}
                   repost_page [] = [] ++ added /\
      Forall (fun r =>
                (normalizeUrl (URL r) ∉ ({[ "http://a.com/1" ]} : gset string)) /\
                exists item,
                  In item repost_page /\ r = record_of item /\
                  passes iso_date_parse (plain_config 1) item = true) added /\
      (length ([] ++ added) <= 1)%nat)
  /\ fetchAllResults_loop (paged two_pages) (plain_config 1) 1 [] 1%Q []
     = returned ([] ++ [1%Q]) TargetReached
         (firstn 1 ([] ++ [plain_item "Dev" "http://a.com/1";
                           plain_item "Ops" "http://a.com/2"])).
Proof.
  split.
  - destruct (proj1 page_acceptance_per_revision
                    iso_date_parse (plain_config 1) {[ "http://a.com/1" ]} 1
                    repost_page [] eq_refl ltac:(cbn; lia))
      as (added & Heq & Hfrom & _ & Hle & _).
    exists added. split; [exact Heq |]. split; [exact Hfrom | exact Hle].
  - apply (proj1 (proj1 (proj2 page_acceptance_per_revision)
                        (paged two_pages) (plain_config 1) 0 0 eq_refl)
             [] 1%Q [] _ _ (Next (1 + 10)%Q)).
    + cbn. lia.
    + reflexivity.
    + cbn. lia.
Defined.

(** C2 as stated fails on googleSearch.js: of a page with a processed URL
    and the same new URL twice, both records of the new URL are
    appended. *)
Lemma GoogleSearch_emits_duplicate_url :
  exists emitted files',
    GoogleSearch.main iso_date_parse (one_page repost_page) (plain_config 10) 5
                      repost_files
    = Some (emitted, files') /\
    ~ NoDup (map (fun r => normalizeUrl (URL r)) emitted).
Proof.
  eexists. eexists. split; [vm_compute; reflexivity |].
  intros H. apply NoDup_cons in H as [H _]. apply H. left.
Qed.

Lemma pagination_example :
  exists e res,
    outcome (fetchNewResults iso_date_parse (paged two_pages) (plain_config 10) ∅ 91)
    = Some (e, res).
Proof.
  apply (proj1 (proj2 (proj2 (proj2 (proj2 pagination_exits_and_ceiling))))
               iso_date_parse (paged two_pages) (plain_config 10) ∅ 91
               (paged_advancing two_pages)).
  lia.
Defined.

(** C4 as stated fails.  Against an endpoint that keeps serving a page of
    processed URLs and points back to the first offset,
    [fetchNewResults] never returns.  And on a document that decodes to
    null it leaves by none of the four conditions: it throws. *)
Lemma fetchNewResults_never_returns :
  (~ exists fuel e res,
       outcome (fetchNewResults iso_date_parse
                  (looping [plain_item "Dev" "http://a.com/job"])
                  (plain_config 1) {[ "http://a.com/job" ]} fuel)
       = Some (e, res))
  /\ fetchNewResults iso_date_parse null_remote (plain_config 1) ∅ 1
     = returned [1%Q] Thrown [].
Proof.
  split; [| reflexivity].
  intros (fuel & e & res & H). revert H. unfold fetchNewResults.
  generalize (@nil Q). induction fuel as [|fuel IH]; intros log; [discriminate |].
  cbn [fetchNewResults_loop]. apply IH.
Qed.

Lemma failure_example :
  fetchNewResults_loop iso_date_parse
    (failing_after [plain_item "Dev" "http://a.com/1"]) (plain_config 10) ∅
    1 [1%Q] 11%Q [ {| Title := "Dev"; URL := "http://a.com/1" |} ]
  = returned [1%Q; 11%Q] FetchError [ {| Title := "Dev"; URL := "http://a.com/1" |} ].
Proof.
  apply (proj1 failure_returns_accumulator
               iso_date_parse (failing_after [plain_item "Dev" "http://a.com/1"])
               (plain_config 10) ∅ 0 [1%Q] 11%Q
               [ {| Title := "Dev"; URL := "http://a.com/1" |} ]);
    reflexivity.
Defined.

Lemma absent_target_example :
  fetchNewResults iso_date_parse (paged two_pages)
                  {| config_avoidKeywords := []; config_minDate := None;
                     config_maxResults := undefined |} ∅ 1
  = returned [] TargetReached []
  /\ fetchAllResults_loop (paged two_pages) no_target 3 [] 1%Q []
     = fetchAllResults_loop (paged two_pages) no_target 2 ([] ++ [1%Q]) (1 + 10)%Q
         ([] ++ [plain_item "Dev" "http://a.com/1";
                 plain_item "Ops" "http://a.com/2"]).
Proof.
  split.
  - apply (proj1 absent_target_per_revision). left. reflexivity.
  - apply (proj1 (proj2 (proj2 (proj2 absent_target_per_revision
                                         (paged two_pages) no_target 2 eq_refl)))
             [] 1%Q [] _ _ (1 + 10)%Q).
    + reflexivity.
    + intros H. vm_compute in H. discriminate H.
    + vm_compute. discriminate.
Defined.

Lemma revisions_agree_example :
  result (fetchAllResults (paged two_pages) (plain_config 3) 5)
  = Some (concat two_pages) /\
  exists accepted,
    result (fetchNewResults iso_date_parse (paged two_pages) (plain_config 3)
                            {[ "http://a.com/2" ]} 5)
    = Some accepted /\
    forall r, In r accepted <->
              In r (GoogleSearch.newResults iso_date_parse (plain_config 3)
                      (concat two_pages) {[ "http://a.com/2" ]}).
Proof.
  destruct (revisions_agree_on_distinct_normalized_urls
              iso_date_parse (paged two_pages) (plain_config 3)
              {[ "http://a.com/2" ]} 3 5 NoItems (concat two_pages))
    as (H1 & H2 & _).
  - reflexivity.
  - vm_compute. reflexivity.
  - discriminate.
  - cbn. lia.
  - intros i Hi _.
    assert (E : key (record_of i) = URL (record_of i))
      by (destruct Hi as [<- | [<- | [<- | []]]]; reflexivity).
    rewrite E. reflexivity.
  - intros i j Hi Hj _ _ _ Hk.
    destruct Hi as [<- | [<- | [<- | []]]], Hj as [<- | [<- | [<- | []]]];
      first [reflexivity | vm_compute in Hk; discriminate Hk].
  - split; assumption.
Defined.

(** C6 as stated fails.  A URL served twice with two titles, a target of
    ten and nothing processed: the fetch-all revision accepts both
    records, the incremental one the first only.  And a URL served in
    capitals and processed in lower case: the fetch-all revision accepts
    the record, the incremental one does not. *)
Lemma revisions_differ_on_repeated_url :
  (exists accepted_all accepted_new,
      all_served (one_page (tail repost_page)) 5 = Some (tail repost_page) /\
      GoogleSearch.newResults iso_date_parse (plain_config 10) (tail repost_page) ∅
      = accepted_all /\
      result (fetchNewResults iso_date_parse (one_page (tail repost_page))
                              (plain_config 10) ∅ 5)
      = Some accepted_new /\
      ~ (forall r, In r accepted_all <-> In r accepted_new))
  /\ (exists accepted_all accepted_new,
         all_served capitals_remote 5 = Some [plain_item "Dev" "HTTP://A.com/job"] /\
         GoogleSearch.newResults iso_date_parse (plain_config 10)
                                 [plain_item "Dev" "HTTP://A.com/job"]
                                 {[ "http://a.com/job" ]}
         = accepted_all /\
         result (fetchNewResults iso_date_parse capitals_remote (plain_config 10)
                                 {[ "http://a.com/job" ]} 5)
         = Some accepted_new /\
         ~ (forall r, In r accepted_all <-> In r accepted_new)).
Proof.
  split.
  - eexists. eexists. split; [vm_compute; reflexivity |].
    split; [vm_compute; reflexivity |]. split; [vm_compute; reflexivity |].
    intros H.
    destruct (proj1 (H {| Title := "Dev (repost)"; URL := "http://a.com/2" |}))
      as [H' | []].
    + right. now left.
    + discriminate H'.
  - eexists. eexists. split; [vm_compute; reflexivity |].
    split; [vm_compute; reflexivity |]. split; [vm_compute; reflexivity |].
    intros H.
    destruct (proj1 (H {| Title := "Dev"; URL := "HTTP://A.com/job" |})).
    now left.
Qed.

Lemma date_filter_example :
  publishedBeforeMinDate iso_date_parse readme_config december_item = true
  /\ (forall acc, filter_step iso_date_parse readme_config acc december_item = acc)
  /\ (forall seen acc,
         processItems iso_date_parse readme_config seen [december_item] acc = acc).
Proof.
  apply (proj1 date_filter_is_advisory iso_date_parse readme_config
               "2025-01-01" 1735689600000%Z december_item 1733011200000%Z).
  - reflexivity.
  - reflexivity.
  - vm_compute. reflexivity.
  - vm_compute. reflexivity.
  - lia.
Defined.

Lemma save_then_load_example :
  GoogleSearch.loadProcessedUrls
    (saveProcessedUrls ["http://a.com/2"; EmptyString]
                       (processed_urls_txt repost_files))
  = GoogleSearch.loadProcessedUrls (processed_urls_txt repost_files)
    ∪ list_to_set (List.filter nonblank ["http://a.com/2"; EmptyString])
  /\ Part001.loadProcessedUrls
       (saveProcessedUrls ["http://a.com/2"; EmptyString]
                          (processed_urls_txt repost_files))
     = Part001.loadProcessedUrls (processed_urls_txt repost_files)
       ∪ list_to_set (map normalizeUrl
                          (List.filter nonblank ["http://a.com/2"; EmptyString]))
  /\ log_closed (saveProcessedUrls ["http://a.com/2"; EmptyString]
                                   (processed_urls_txt repost_files)).
Proof.
  apply (save_then_load ascii_trim_empty ["http://a.com/2"; EmptyString]
                        (processed_urls_txt repost_files)).
  - right. exists "http://a.com/1". reflexivity.
  - repeat constructor.
Defined.

Lemma blank_url_example :
  (or_empty (link bare_item) ∉ GoogleSearch.loadProcessedUrls
                                 (processed_urls_txt repost_files))
  /\ (normalizeUrl (or_empty (link bare_item))
      ∉ Part001.loadProcessedUrls (processed_urls_txt repost_files)).
Proof.
  apply (blank_url_never_processed ascii_trim_empty ascii_lower_of_empty
           ascii_lower_nonempty
                                   (processed_urls_txt repost_files)
                                   (or_empty (link bare_item))).
  reflexivity.
Defined.

Lemma nothing_served_example :
  GoogleSearch.main iso_date_parse (one_page []) readme_config 1 repost_files
  = Some ([], repost_files)
  /\ Part001.main iso_date_parse (one_page []) readme_config 1 repost_files
     = Some ([], repost_files)
  /\ Part002Script.main iso_date_parse (one_page []) readme_config 1
                        (google_search_results_csv repost_files)
     = Some ([], google_search_results_csv repost_files).
Proof.
  apply (nothing_served_nothing_written iso_date_parse (one_page [])
                                        readme_config 0 repost_files).
  right. exists NoNext. right. reflexivity.
Defined.

Lemma GoogleSearch_second_run_example :
  GoogleSearch.main iso_date_parse (one_page repost_page) (plain_config 10) 5
    {| processed_urls_txt :=
         Some ("http://a.com/1" +:+ nl +:+ "http://a.com/2" +:+ nl
               +:+ "http://a.com/2" +:+ nl);
       google_search_results_csv :=
         Some (header +:+ csv_rows
                 [ {| Title := "Dev"; URL := "http://a.com/2" |};
                   {| Title := "Dev (repost)"; URL := "http://a.com/2" |} ]) |}
  = Some ([],
    {| processed_urls_txt :=
         Some ("http://a.com/1" +:+ nl +:+ "http://a.com/2" +:+ nl
               +:+ "http://a.com/2" +:+ nl);
       google_search_results_csv :=
         Some (header +:+ csv_rows
                 [ {| Title := "Dev"; URL := "http://a.com/2" |};
                   {| Title := "Dev (repost)"; URL := "http://a.com/2" |} ]) |}).
Proof.
  apply (GoogleSearch_second_run_appends_nothing ascii_trim_empty
           iso_date_parse (one_page repost_page) (plain_config 10) 5 repost_files
           _ [ {| Title := "Dev"; URL := "http://a.com/2" |};
               {| Title := "Dev (repost)"; URL := "http://a.com/2" |} ]).
  - right. exists "http://a.com/1". reflexivity.
  - vm_compute. reflexivity.
  - repeat constructor.
Defined.

Lemma fetchNewResults_rerun_example :
  outcome (fetchNewResults iso_date_parse (paged two_pages) (plain_config 10)
             {[ "http://a.com/1"; "http://a.com/2"; "http://a.com/3" ]} 5)
  = Some (NoItems, []) /\
  (NoItems <> Thrown ->
   result (fetchNewResults iso_date_parse (paged two_pages) (plain_config 10)
             {[ "http://a.com/1"; "http://a.com/2"; "http://a.com/3" ]} 5)
   = Some []).
Proof.
  apply (fetchNewResults_rerun_returns_nothing
           iso_date_parse (paged two_pages) (plain_config 10)
           {[ "http://a.com/2" ]}
           {[ "http://a.com/1"; "http://a.com/2"; "http://a.com/3" ]} 5
           NoItems
           [ {| Title := "Dev"; URL := "http://a.com/1" |};
             {| Title := "QA"; URL := "http://a.com/3" |} ]).
  - vm_compute. reflexivity.
  - discriminate.
  - set_solver.
  - repeat constructor; set_solver.
Defined.

Lemma Part001_second_run_example :
  exists files',
    Part001.main iso_date_parse (paged two_pages) (plain_config 10) 5 repost_files
    = Some ([ {| Title := "Ops"; URL := "http://a.com/2" |};
              {| Title := "QA"; URL := "http://a.com/3" |} ], files') /\
    Part001.main iso_date_parse (paged two_pages) (plain_config 10) 5 files'
    = Some ([], files').
Proof.
  apply (Part001_second_run_appends_nothing ascii_trim_empty
           iso_date_parse (paged two_pages) (plain_config 10) 5 repost_files
           NoItems).
  - right. exists "http://a.com/1". reflexivity.
  - vm_compute. reflexivity.
  - discriminate.
  - discriminate.
  - repeat constructor.
Defined.

Lemma fetchNewResults_result_example :
  (forall m, config_maxResults (plain_config 2) = num m ->
             (length [ {| Title := "Dev"; URL := "http://a.com/1" |};
                       {| Title := "Ops"; URL := "http://a.com/2" |} ] <= m)%nat)
  /\ NoDup (map (fun r => normalizeUrl (URL r))
                [ {| Title := "Dev"; URL := "http://a.com/1" |};
                  {| Title := "Ops"; URL := "http://a.com/2" |} ])
  /\ Forall (fun r => exists item,
                 served (paged two_pages)
                        (requested (fetchNewResults iso_date_parse (paged two_pages)
                                      (plain_config 2) ∅ 5)) item /\
                 r = record_of item /\
                 passes iso_date_parse (plain_config 2) item = true)
            [ {| Title := "Dev"; URL := "http://a.com/1" |};
              {| Title := "Ops"; URL := "http://a.com/2" |} ].
Proof.
  apply (fetchNewResults_result_invariants
           iso_date_parse (paged two_pages) (plain_config 2) ∅ 5 TargetReached).
  vm_compute. reflexivity.
Defined.

Lemma advancing_endpoint_example :
  ((length (requested (fetchNewResults iso_date_parse (paged two_pages)
                         (plain_config 10) ∅ 200)) <= 91)%nat
   /\ NoDup (requested (fetchNewResults iso_date_parse (paged two_pages)
                          (plain_config 10) ∅ 200)))
  /\ ((length (requested (fetchAllResults (paged two_pages)
                            (plain_config 10) 200)) <= 91)%nat
      /\ NoDup (requested (fetchAllResults (paged two_pages)
                             (plain_config 10) 200))).
Proof.
  apply (advancing_endpoint_bounds_requests
           iso_date_parse (paged two_pages) (plain_config 10) ∅ 200
           (paged_advancing two_pages)).
Defined.

Lemma fetchAllResults_truncates_example :
  result (fetchAllResults (paged two_pages) (plain_config 1) 5)
  = Some (firstn 1 (concat two_pages)).
Proof.
  apply (fetchAllResults_target_truncates (paged two_pages) (plain_config 1) 0 5
                                          (concat two_pages)).
  - reflexivity.
  - vm_compute. reflexivity.
Defined.

Lemma getPublishedDate_example :
  getPublishedDate iso_date_parse
    {| title := None; link := None;
       pagemap := Some {| metatags :=
         Some ([ {[ "og:title" := "Dev" ]} ]
               ++ {[ "article:published_time" := "2024-12-01";
                     "og:published_time" := "2025-02-01" ]}
               :: [ {[ "og:published_time" := "2025-03-01" ]} ]) |} |}
  = Some (iso_date_parse "2024-12-01")
  /\ getPublishedDate iso_date_parse
       {| title := None; link := None;
          pagemap := Some {| metatags :=
            Some ([ {[ "og:title" := "Dev" ]} ]
                  ++ {[ "article:published_time" := EmptyString;
                        "og:published_time" := "2025-02-01" ]}
                  :: [ {[ "article:published_time" := "2025-03-01" ]} ]) |} |}
     = Some (iso_date_parse "2025-02-01").
Proof.
  split.
  - apply (proj1 (proj2 (getPublishedDate_reads_first_dated_tag iso_date_parse))).
    + repeat constructor.
    + reflexivity.
  - apply (proj2 (proj2 (getPublishedDate_reads_first_dated_tag iso_date_parse))).
    + repeat constructor.
    + reflexivity.
    + reflexivity.
Defined.

Lemma unparsable_dates_example :
  publishedBeforeMinDate iso_date_parse
    {| config_avoidKeywords := []; config_minDate := Some "not a date";
       config_maxResults := num 10 |} december_item = false
  /\ passes iso_date_parse
       {| config_avoidKeywords := []; config_minDate := Some "not a date";
          config_maxResults := num 10 |} december_item
     = passes iso_date_parse
         (without_minDate
            {| config_avoidKeywords := []; config_minDate := Some "not a date";
               config_maxResults := num 10 |}) december_item.
Proof.
  apply (unparsable_dates_reject_nothing iso_date_parse
           {| config_avoidKeywords := []; config_minDate := Some "not a date";
              config_maxResults := num 10 |} december_item).
  right. left. exists "not a date". split; reflexivity.
Defined.

Lemma containsAvoidKeyword_edges_example :
  containsAvoidKeyword "Dev" ["government clearance"; EmptyString] = true.
Proof.
  apply (proj1 (proj2 (containsAvoidKeyword_edges ascii_lower_of_empty))). right. now left.
Defined.


Lemma buildQuery_empty_example : buildQuery no_criteria = EmptyString.
Proof.
  apply (proj2 (buildQuery_empty_iff no_criteria)).
  intros cat. destruct cat; reflexivity.
Defined.

Lemma Part002_buildQuery_example :
  Part002.buildQuery readme_criteria
  = Some (buildQuery (part002_view readme_criteria)).
Proof.
  apply (proj1 (proj2 (Part002_buildQuery_behaviour readme_criteria))
               "experienced" ["senior"] "workday.com" ["icims.com"]
               "Remote" ["USA"]); reflexivity.
Defined.

Lemma unterminated_log_example :
  GoogleSearch.loadProcessedUrls
    (saveProcessedUrls ["http://a.com/2"]
                       (Some (("http://a.com/0" +:+ nl) +:+ "http://a.com/1")))
  = GoogleSearch.loadProcessedUrls (Some ("http://a.com/0" +:+ nl))
    ∪ list_to_set (List.filter nonblank ["http://a.com/1" +:+ "http://a.com/2"])
  /\ Part001.loadProcessedUrls
       (saveProcessedUrls ["http://a.com/2"]
                          (Some (("http://a.com/0" +:+ nl) +:+ "http://a.com/1")))
     = Part001.loadProcessedUrls (Some ("http://a.com/0" +:+ nl))
       ∪ list_to_set (map normalizeUrl
                          (List.filter nonblank
                             ["http://a.com/1" +:+ "http://a.com/2"])).
Proof.
  apply (unterminated_log_glues_first_url ascii_trim_empty ("http://a.com/0" +:+ nl)
                                          "http://a.com/1" "http://a.com/2").
  - right. exists "http://a.com/0". reflexivity.
  - reflexivity.
  - reflexivity.
Defined.
